(** * Omnipedia: follow graph, bookmarks and vote tallies

    A shallow embedding of the Express handlers of
    [controllers/userController.ts] (bookmarkResource, unbookmarkResource,
    followUser, unfollowUser) and of [controllers/topicController.ts]
    (getTopicBySlug, updateTopic), over an explicit model of the Mongoose
    collections they read and write, and of the search bar's two event
    handlers (fetchSuggestions, handleKeyDown). *)

From Stdlib Require Import Ascii String.
From stdpp Require Import base strings list gmap.

Open Scope string_scope.
Open Scope list_scope.
Open Scope nat_scope.

(** ** ObjectIds

    An [ObjectId] is represented by the string [toString()] prints for it:
    24 lower-case hexadecimal digits.  Request bodies carry plain strings;
    Mongoose casts them where a schema path of type ObjectId is written or
    queried, and fails with a CastError on anything that is not 24
    hexadecimal digits. *)

Module ObjectId.

Definition isHexDigit (c : ascii) : bool :=
  let n := N_of_ascii c in
  ((48 <=? n) && (n <=? 57) || (97 <=? n) && (n <=? 102)
   || (65 <=? n) && (n <=? 70))%N.

Definition toLowerHex (c : ascii) : ascii :=
  let n := N_of_ascii c in
  if ((65 <=? n) && (n <=? 70))%N then ascii_of_N (n + 32) else c.

Fixpoint allHex (s : string) : bool :=
  match s with
  | EmptyString => true
  | String c s' => isHexDigit c && allHex s'
  end.

Fixpoint lower (s : string) : string :=
  match s with
  | EmptyString => EmptyString
  | String c s' => String (toLowerHex c) (lower s')
  end.

(** [new ObjectId(s)] on a string argument. *)
Definition cast (s : string) : option string :=
  if (String.length s =? 24)%nat && allHex s then Some (lower s) else None.

(** The strings that are the printed form of an ObjectId. *)
Definition canonical (s : string) : Prop := cast s = Some s.

End ObjectId.

Abbreviation ObjectId := string (only parsing).

(** ** The users collection *)

Record User := mkUser {
  followedUsers : list ObjectId;
  followers : list ObjectId;
  bookmarkedResources : list ObjectId
}.

(** A hydrated document: the stored fields together with the [_id] it was
    loaded under. *)
Record UserDoc := mkUserDoc {
  _id : ObjectId;
  fields : User
}.

(** The array paths of the User schema a handler can modify before [save]. *)
Inductive Path := PFollowedUsers | PFollowers | PBookmarkedResources.

Definition writePath (p : Path) (src dst : User) : User :=
  match p with
  | PFollowedUsers =>
      mkUser (followedUsers src) (followers dst) (bookmarkedResources dst)
  | PFollowers =>
      mkUser (followedUsers dst) (followers src) (bookmarkedResources dst)
  | PBookmarkedResources =>
      mkUser (followedUsers dst) (followers dst) (bookmarkedResources src)
  end.

Inductive StoreOp :=
| OpFindById (id : ObjectId)
| OpSave (id : ObjectId) (p : Path).

Inductive Error :=
| CastError
| StoreUnavailable
| DocumentNotFoundError
| DuplicateKeyError.

(** The world a user handler runs in: the collection, the outcome of the
    store round trips still to come ([true]: the round trip fails; an
    exhausted list: no failure), and the round trips made so far. *)
Record World := mkWorld {
  users : gmap ObjectId User;
  faults : list bool;
  log : list StoreOp
}.

(** ** Awaited computations that may throw *)

Definition M (A : Type) : Type := World → (Error + A) * World.

Definition ret {A} (a : A) : M A := λ w, (inr a, w).

Definition throw {A} (e : Error) : M A := λ w, (inl e, w).

Definition bind {A B} (m : M A) (k : A → M B) : M B :=
  λ w, match m w with
       | (inl e, w') => (inl e, w')
       | (inr a, w') => k a w'
       end.

Global Instance M_ret : MRet M := @ret.
Global Instance M_bind : MBind M := λ A B k m, bind m k.

(** One round trip to the store. *)
Definition roundTrip (op : StoreOp) : M unit :=
  λ w, let w' := mkWorld (users w) (tail (faults w)) (log w ++ [op]) in
       match faults w with
       | true :: _ => (inl StoreUnavailable, w')
       | _ => (inr (), w')
       end.

Definition readUsers : M (gmap ObjectId User) := λ w, (inr (users w), w).

Definition writeUsers (us : gmap ObjectId User) : M unit :=
  λ w, (inr (), mkWorld us (faults w) (log w)).

(** [User.findById(id)] with an ObjectId: one round trip; a found record is
    hydrated. *)
Definition findByKey (k : ObjectId) : M (option UserDoc) :=
  roundTrip (OpFindById k);;
  us ← readUsers;
  mret (mkUserDoc k <$> us !! k).

(** [User.findById(id)] with a string from the request: the string is cast
    to an ObjectId before the query is sent. *)
Definition findById (id : string) : M (option UserDoc) :=
  match ObjectId.cast id with
  | None => throw CastError
  | Some k => findByKey k
  end.

(** [doc.save()] after path [p] of [doc] was modified: only that path is
    written to the stored record. *)
Definition save (doc : UserDoc) (p : Path) : M unit :=
  roundTrip (OpSave (_id doc) p);;
  us ← readUsers;
  match us !! _id doc with
  | None => throw DocumentNotFoundError
  | Some u => writeUsers (<[_id doc := writePath p (fields doc) u]> us)
  end.

(** ** Mongoose arrays of ObjectIds *)

(** [arr.includes(x)]: [x] (a string, or an ObjectId through [toString])
    is compared with the printed form of each element. *)
Definition includes (arr : list ObjectId) (x : string) : bool :=
  bool_decide (x ∈ arr).

(** [arr.push(x)] with a string from the request: the pushed value is cast
    to the element type. *)
Definition push (arr : list ObjectId) (x : string) : M (list ObjectId) :=
  match ObjectId.cast x with
  | None => throw CastError
  | Some k => mret (arr ++ [k])
  end.

(** [arr.push(id)] with an ObjectId. *)
Definition pushId (arr : list ObjectId) (id : ObjectId) : list ObjectId :=
  arr ++ [id].

(** [arr.filter((id) => id.toString() !== x)]. *)
Definition without (x : string) (arr : list ObjectId) : list ObjectId :=
  filter (λ id, id ≠ x) arr.

(** ** Requests and responses *)

(** [req.user] is the document the authentication middleware loaded for the
    caller; [req.body] maps field names to the strings sent. *)
Record AuthRequest := mkReq {
  user : UserDoc;
  body : gmap string string
}.

Inductive Json :=
| JMessage (message : string)
| JIds (ids : list ObjectId)
| JFollow (followed : list ObjectId) (followedBy : list ObjectId).

Record Response := mkRes {
  status : nat;
  json : Json
}.

(** A destructured body field [x] under the guard [if (!x) return ...]:
    the guard fires when the field is missing or the empty string. *)
Definition truthy (x : option string) : option string :=
  match x with
  | None => None
  | Some s => if bool_decide (s = "") then None else Some s
  end.

(** [try { ... } catch (error) { res.status(500).json({ message }) }] *)
Definition tryCatch (block : M Response) (message : string)
  : World → Response * World :=
  λ w, match block w with
       | (inr r, w') => (r, w')
       | (inl _, w') => (mkRes 500 (JMessage message), w')
       end.

Definition respond (code : nat) (message : string) : World → Response * World :=
  λ w, (mkRes code (JMessage message), w).

Definition withFollowedUsers (d : UserDoc) (l : list ObjectId) : UserDoc :=
  mkUserDoc (_id d)
    (mkUser l (followers (fields d)) (bookmarkedResources (fields d))).

Definition withFollowers (d : UserDoc) (l : list ObjectId) : UserDoc :=
  mkUserDoc (_id d)
    (mkUser (followedUsers (fields d)) l (bookmarkedResources (fields d))).

Definition withBookmarkedResources (d : UserDoc) (l : list ObjectId) : UserDoc :=
  mkUserDoc (_id d)
    (mkUser (followedUsers (fields d)) (followers (fields d)) l).

(** ** controllers/userController.ts *)

Definition bookmarkResource (req : AuthRequest) : World → Response * World :=
  match truthy (body req !! "resourceId") with
  | None => respond 400 "Resource ID is required"
  | Some resourceId =>
      tryCatch
        (found ← findByKey (_id (user req));
         match found with
         | None => mret (mkRes 404 (JMessage "User not found"))
         | Some user =>
             if negb (includes (bookmarkedResources (fields user)) resourceId)
             then
               l ← push (bookmarkedResources (fields user)) resourceId;
               save (withBookmarkedResources user l) PBookmarkedResources;;
               mret (mkRes 200 (JIds l))
             else mret (mkRes 200 (JIds (bookmarkedResources (fields user))))
         end)
        "Server error while bookmarking resource"
  end.

Definition unbookmarkResource (req : AuthRequest) : World → Response * World :=
  match truthy (body req !! "resourceId") with
  | None => respond 400 "Resource ID is required"
  | Some resourceId =>
      tryCatch
        (found ← findByKey (_id (user req));
         match found with
         | None => mret (mkRes 404 (JMessage "User not found"))
         | Some user =>
             if includes (bookmarkedResources (fields user)) resourceId
             then
               let l := without resourceId (bookmarkedResources (fields user)) in
               save (withBookmarkedResources user l) PBookmarkedResources;;
               mret (mkRes 200 (JIds l))
             else mret (mkRes 200 (JIds (bookmarkedResources (fields user))))
         end)
        "Server error while unbookmarking resource"
  end.

Definition followUser (req : AuthRequest) : World → Response * World :=
  let currentUserId := _id (user req) in
  match truthy (body req !! "userIdToFollow") with
  | None => respond 400 "User ID to follow is required"
  | Some userIdToFollow =>
      if bool_decide (userIdToFollow = currentUserId)
      then respond 400 "You cannot follow yourself"
      else
        tryCatch
          (found ← findById userIdToFollow;
           match found with
           | None => mret (mkRes 404 (JMessage "User to follow not found"))
           | Some userToFollow =>
               (* Add to current user's followedUsers if not already present *)
               mine ←
                 (if negb (includes (followedUsers (fields (user req))) userIdToFollow)
                  then
                    l ← push (followedUsers (fields (user req))) userIdToFollow;
                    save (withFollowedUsers (user req) l) PFollowedUsers;;
                    mret l
                  else mret (followedUsers (fields (user req))));
               (* Add current user to the followed user's followers *)
               theirs ←
                 (if negb (includes (followers (fields userToFollow)) currentUserId)
                  then
                    let l := pushId (followers (fields userToFollow)) currentUserId in
                    save (withFollowers userToFollow l) PFollowers;;
                    mret l
                  else mret (followers (fields userToFollow)));
               mret (mkRes 200 (JFollow mine theirs))
           end)
          "Server error while following user"
  end.

Definition unfollowUser (req : AuthRequest) : World → Response * World :=
  let currentUserId := _id (user req) in
  match truthy (body req !! "userIdToUnfollow") with
  | None => respond 400 "User ID to unfollow is required"
  | Some userIdToUnfollow =>
      if bool_decide (userIdToUnfollow = currentUserId)
      then respond 400 "You cannot unfollow yourself"
      else
        tryCatch
          (found ← findById userIdToUnfollow;
           match found with
           | None => mret (mkRes 404 (JMessage "User to unfollow not found"))
           | Some userToUnfollow =>
               (* Remove from current user's followedUsers if present *)
               mine ←
                 (if includes (followedUsers (fields (user req))) userIdToUnfollow
                  then
                    let l := without userIdToUnfollow
                               (followedUsers (fields (user req))) in
                    save (withFollowedUsers (user req) l) PFollowedUsers;;
                    mret l
                  else mret (followedUsers (fields (user req))));
               (* Remove current user from the followed user's followers *)
               theirs ←
                 (if includes (followers (fields userToUnfollow)) currentUserId
                  then
                    let l := without currentUserId
                               (followers (fields userToUnfollow)) in
                    save (withFollowers userToUnfollow l) PFollowers;;
                    mret l
                  else mret (followers (fields userToUnfollow)));
               mret (mkRes 200 (JFollow mine theirs))
           end)
          "Server error while unfollowing user"
  end.

(** Modelled from the spec: the authentication middleware is not among the
    sources; section 9 has it resolve the actor before a handler is
    reached.  [asUser actor fieldName value handler] is the handler run
    on a request whose [req.user] is the stored record of [actor] and whose
    body has the one field given; there is no run when [actor] has no
    record. *)
Definition asUser (actor : ObjectId) (fieldName value : string)
    (handler : AuthRequest → World → Response * World) (w : World)
  : option (Response * World) :=
  match users w !! actor with
  | None => None
  | Some u => Some (handler (mkReq (mkUserDoc actor u) {[ fieldName := value ]}) w)
  end.

Definition follow (a b : ObjectId) : World → option (Response * World) :=
  asUser a "userIdToFollow" b followUser.

Definition unfollow (a b : ObjectId) : World → option (Response * World) :=
  asUser a "userIdToUnfollow" b unfollowUser.

Definition bookmark (u r : ObjectId) : World → option (Response * World) :=
  asUser u "resourceId" r bookmarkResource.

Definition unbookmark (u r : ObjectId) : World → option (Response * World) :=
  asUser u "resourceId" r unbookmarkResource.

(** ** controllers/topicController.ts *)

Module Topics.

Record Resource := mkResource {
  _id : ObjectId;
  url : string
}.

Record Topic := mkTopic {
  name : string;
  slug : string;
  description : string;
  resources : list ObjectId
}.

Record Vote := mkVote {
  resource : ObjectId;
  upvoters : list ObjectId;
  downvoters : list ObjectId
}.

(** Modelled from the spec: models/Vote is not among the sources; section 6
    gives the store's create a uniqueness constraint on Vote.resource.
    [uniqueVoteResource] says whether the votes collection carries that
    unique index. *)
Record Db := mkDb {
  topics : list Topic;
  resourceDocs : gmap ObjectId Resource;
  votes : list Vote;
  uniqueVoteResource : bool
}.

(** A resource of the response: [...resource.toObject()] with its counts. *)
Record Tallied := mkTallied {
  populated : Resource;
  upvotes : nat;
  downvotes : nat
}.

Inductive Json :=
| JMessage (message : string)
| JTopic (topic : Topic) (tallied : list Tallied).

Record Response := mkRes {
  status : nat;
  json : Json
}.

(** [Topic.findOne({ slug }).populate('resources')]: the first topic with
    the slug, and the documents its resource ids resolve to. *)
Definition findTopic (s : string) (db : Db) : option (Topic * list Resource) :=
  match head (filter (λ t, slug t = s) (topics db)) with
  | None => None
  | Some t => Some (t, omap (λ id, resourceDocs db !! id) (resources t))
  end.

Definition votesFor (r : ObjectId) (vs : list Vote) : list Vote :=
  filter (λ v, resource v = r) vs.

(** [Vote.findOne({ resource: r })] *)
Definition findOne (r : ObjectId) (vs : list Vote) : option Vote :=
  head (votesFor r vs).

(** [Vote.create(v)] *)
Definition create (unique : bool) (v : Vote) (vs : list Vote)
  : Error + list Vote :=
  if unique && negb (bool_decide (votesFor (resource v) vs = []))
  then inl DuplicateKeyError
  else inr (vs ++ [v]).

Definition tally (r : Resource) (vote : Vote) : Tallied :=
  mkTallied r (length (upvoters vote)) (length (downvoters vote)).

(** The callback [async (resource) => { ... }] of lines 69-82 between its
    suspension points.  [Promise.all(topic.resources.map(...))] starts
    one per resource; each runs to its first [await] at once, and is
    resumed when the store answers. *)
Inductive Task :=
| AwaitFindOne (r : Resource)
| AwaitCreate (r : Resource)
| Fulfilled (t : Tallied)
| Rejected (e : Error).

Definition resume (unique : bool) (t : Task) (vs : list Vote)
  : Task * list Vote :=
  match t with
  | AwaitFindOne r =>
      match findOne (_id r) vs with
      | Some vote => (Fulfilled (tally r vote), vs)
      | None => (AwaitCreate r, vs)
      end
  | AwaitCreate r =>
      let vote := mkVote (_id r) [] [] in
      match create unique vote vs with
      | inl e => (Rejected e, vs)
      | inr vs' => (Fulfilled (tally r vote), vs')
      end
  | Fulfilled _ | Rejected _ => (t, vs)
  end.

(** What the store does next: answer the pending call of callback [i], or
    apply the lazy [Vote.create] of some other request for resource [r]. *)
Inductive Event :=
| Resume (i : nat)
| Concurrent (r : ObjectId).

Definition step (unique : bool) (s : list Task * list Vote) (e : Event)
  : list Task * list Vote :=
  match e with
  | Resume i =>
      match fst s !! i with
      | None => s
      | Some t =>
          let (t', vs') := resume unique t (snd s) in (<[i := t']> (fst s), vs')
      end
  | Concurrent r =>
      match create unique (mkVote r [] []) (snd s) with
      | inl _ => s
      | inr vs' => (fst s, vs')
      end
  end.

Definition run (unique : bool) (sched : list Event)
    (s : list Task * list Vote) : list Task * list Vote :=
  foldl (step unique) s sched.

(** [await Promise.all(tasks)]: rejected as soon as one task is, fulfilled
    with all the values once every task is, pending otherwise. *)
Fixpoint firstRejected (tasks : list Task) : option Error :=
  match tasks with
  | [] => None
  | Rejected e :: _ => Some e
  | _ :: rest => firstRejected rest
  end.

Fixpoint allFulfilled (tasks : list Task) : option (list Tallied) :=
  match tasks with
  | [] => Some []
  | Fulfilled t :: rest => cons t <$> allFulfilled rest
  | _ :: _ => None
  end.

Definition promiseAll (tasks : list Task) : option (Error + list Tallied) :=
  match firstRejected tasks with
  | Some e => Some (inl e)
  | None => inr <$> allFulfilled tasks
  end.

Definition withVotes (db : Db) (vs : list Vote) : Db :=
  mkDb (topics db) (resourceDocs db) vs (uniqueVoteResource db).

(** The callbacks of a request and the votes collection after the store
    events [sched]. *)
Definition tallyTasks (sched : list Event) (rs : list Resource) (db : Db)
  : list Task * list Vote :=
  run (uniqueVoteResource db) sched (AwaitFindOne <$> rs, votes db).

(** The handler under the store events [sched]; [None] while the response
    is still pending. *)
Definition getTopicBySlug (sched : list Event) (s : string) (db : Db)
  : option (Response * Db) :=
  match findTopic s db with
  | None => Some (mkRes 404 (JMessage "Topic not found"), db)
  | Some (topic, rs) =>
      let (tasks, vs) := tallyTasks sched rs db in
      match promiseAll tasks with
      | None => None
      | Some (inr resourcesWithVotes) =>
          Some (mkRes 200 (JTopic topic resourcesWithVotes), withVotes db vs)
      | Some (inl _) =>
          Some (mkRes 500 (JMessage "Server error while fetching topic"),
                withVotes db vs)
      end
  end.

(** The store answers the callbacks one after the other, each to its end. *)
Definition inOrder (n : nat) : list Event :=
  flat_map (λ i, [Resume i; Resume i]) (seq 0 n).

Definition isResume (e : Event) : Prop :=
  match e with Resume _ => True | Concurrent _ => False end.

Definition settled (t : Task) : Prop :=
  match t with
  | Fulfilled _ | Rejected _ => True
  | AwaitFindOne _ | AwaitCreate _ => False
  end.

(** The entry [t] of the response is the tally of resource [r]: its counts
    are the sizes of the sets of the Vote record [r] had in [vs0], whose
    records are then still those of [vs0]; or zero when [r] had none, and
    then [vs] holds one record for [r], with empty sets. *)
Definition talliedFrom (vs0 vs : list Vote) (r : Resource) (t : Tallied) : Prop :=
  populated t = r
  ∧ match findOne (_id r) vs0 with
    | Some vote =>
        upvotes t = length (upvoters vote)
        ∧ downvotes t = length (downvoters vote)
        ∧ votesFor (_id r) vs = votesFor (_id r) vs0
    | None =>
        upvotes t = 0 ∧ downvotes t = 0
        ∧ votesFor (_id r) vs = [mkVote (_id r) [] []]
    end.

(** What holds of the callback of resource [r] while no other writer
    touches the collection. *)
Definition taskOk (vs0 vs : list Vote) (r : Resource) (t : Task) : Prop :=
  match t with
  | AwaitFindOne r' => r' = r ∧ votesFor (_id r) vs = votesFor (_id r) vs0
  | AwaitCreate r' =>
      r' = r ∧ votesFor (_id r) vs0 = [] ∧ votesFor (_id r) vs = []
  | Fulfilled t => talliedFrom vs0 vs r t
  | Rejected _ => False
  end.

Definition tasksOk (vs0 : list Vote) (rs : list Resource)
    (s : list Task * list Vote) : Prop :=
  length (fst s) = length rs
  ∧ (∀ i r t, rs !! i = Some r → fst s !! i = Some t → taskOk vs0 (snd s) r t)
  ∧ (∀ k, k ∉ _id <$> rs → votesFor k (snd s) = votesFor k vs0).

(** One topic with one resource, which has no Vote record yet. *)
Definition resource1 : Resource :=
  mkResource "0000000000000000000000f1" "https://example.org/intro".

Definition topic1 : Topic :=
  mkTopic "Rocq" "rocq" "A proof assistant" ["0000000000000000000000f1"].

Definition db1 : Db :=
  mkDb [topic1] {[ "0000000000000000000000f1" := resource1 ]} [] true.

(** The lookup of the callback is answered, another request creates the
    Vote record of the resource, then the callback's create is answered. *)
Definition raceSchedule : list Event :=
  [Resume 0; Concurrent "0000000000000000000000f1"; Resume 0].

(** *** Further properties of the tally read path *)

Definition isEmptyVote (v : Vote) : Prop := upvoters v = [] ∧ downvoters v = [].

(** What holds of the callback of resource [r] when [r] had a Vote record
    in [vs0]: it waits for its lookup, or is fulfilled with the tally of
    the record the lookup finds in [vs0]. *)
Definition readOk (vs0 : list Vote) (r : Resource) (t : Task) : Prop :=
  match t with
  | AwaitFindOne r' => r' = r
  | Fulfilled tl => ∃ vote, findOne (_id r) vs0 = Some vote ∧ tl = tally r vote
  | AwaitCreate _ | Rejected _ => False
  end.

Definition readsOk (vs0 : list Vote) (rs : list Resource)
    (s : list Task * list Vote) : Prop :=
  length (fst s) = length rs
  ∧ (∀ i r t, rs !! i = Some r → fst s !! i = Some t → readOk vs0 r t)
  ∧ ∃ added, snd s = vs0 ++ added.

(** The topic of [db1], whose resource has two upvoters and a downvoter. *)
Definition db2 : Db :=
  mkDb [topic1] {[ "0000000000000000000000f1" := resource1 ]}
       [mkVote "0000000000000000000000f1"
          ["000000000000000000000001"; "000000000000000000000002"]
          ["000000000000000000000003"]]
       true.

End Topics.

(** ** updateTopic of controllers/topicController.ts *)

Module TopicAdmin.

Inductive Json :=
| JMessage (message : string)
| JTopic (topic : Topics.Topic).

Record Response := mkRes {
  status : nat;
  json : Json
}.

Definition withTopics (db : Topics.Db) (ts : list Topics.Topic) : Topics.Db :=
  Topics.mkDb ts (Topics.resourceDocs db) (Topics.votes db)
              (Topics.uniqueVoteResource db).

(** The update document [{ description }]: a description the body does not
    have is left out of the update. *)
Definition setDescription (description : option string) (t : Topics.Topic)
  : Topics.Topic :=
  match description with
  | Some d => Topics.mkTopic (Topics.name t) (Topics.slug t) d (Topics.resources t)
  | None => t
  end.

(** [Topic.findOneAndUpdate({ slug }, { description }, { new: true })] on
    the stored topics: the first topic with the slug is updated in place
    and returned as updated. *)
Fixpoint findOneAndUpdate (s : string) (description : option string)
    (ts : list Topics.Topic) : option (Topics.Topic * list Topics.Topic) :=
  match ts with
  | [] => None
  | t :: rest =>
      if bool_decide (Topics.slug t = s)
      then Some (setDescription description t,
                 setDescription description t :: rest)
      else match findOneAndUpdate s description rest with
           | Some (t', rest') => Some (t', t :: rest')
           | None => None
           end
  end.

(** [await Topic.findOneAndUpdate(...)]: the store rejects the call
    ([rejected]), and has then written nothing, or carries it out. *)
Definition awaitFindOneAndUpdate (rejected : bool) (s : string)
    (description : option string) (db : Topics.Db)
  : (Error + option Topics.Topic) * Topics.Db :=
  if rejected then (inl StoreUnavailable, db)
  else match findOneAndUpdate s description (Topics.topics db) with
       | None => (inr None, db)
       | Some (t, ts) => (inr (Some t), withTopics db ts)
       end.

(** [updateTopic] (lines 39-56), with [slug] the route parameter and [body]
    the request body. *)
Definition updateTopic (rejected : bool) (slug : string)
    (body : gmap string string) (db : Topics.Db) : Response * Topics.Db :=
  match awaitFindOneAndUpdate rejected slug (body !! "description") db with
  | (inr None, db') => (mkRes 404 (JMessage "Topic not found"), db')
  | (inr (Some topic), db') => (mkRes 200 (JTopic topic), db')
  | (inl _, db') => (mkRes 500 (JMessage "Server error"), db')
  end.

(** What an update of the description leaves alone. *)
Definition outline (t : Topics.Topic) : string * string * list ObjectId :=
  (Topics.name t, Topics.slug t, Topics.resources t).

End TopicAdmin.

(** ** components/SearchBar.tsx

    A string is read as its sequence of UTF-16 code units, all below 256. *)

Module SearchBar.

Record Topic := mkTopic {
  _id : string;
  name : string;
  description : string;
  slug : string
}.

(** The state the component keeps with [useState]. *)
Record State := mkState {
  searchTerm : string;
  showSuggestions : bool;
  suggestions : list Topic;
  error : option string;
  noResults : bool
}.

(** What [axios.get] of the search endpoint comes to: it throws (no answer,
    or a status outside 2xx), or answers with [response.data.topics] an
    array or something falsy. *)
Inductive SearchReply :=
| SearchThrew
| SearchData (topics : option (list Topic)).

(** The body of [fetchSuggestions] (lines 27-51), with [get] the server
    behind [/search/topics?query=]. *)
Definition fetchSuggestions (get : string → SearchReply) (st : State) : State :=
  if 2 <? String.length (searchTerm st)
  then
    match get (searchTerm st) with
    | SearchData (Some topics) =>
        mkState (searchTerm st) (showSuggestions st) topics None
                (length topics =? 0)
    | SearchData None =>
        mkState (searchTerm st) (showSuggestions st) []
                (Some "Unexpected server response.") false
    | SearchThrew =>
        mkState (searchTerm st) (showSuggestions st) []
                (Some "Unable to retrieve suggestions. Please try again later.")
                false
    end
  else mkState (searchTerm st) (showSuggestions st) [] None false.

(** The white space and line terminators [String.prototype.trim] strips,
    among the code units below 256. *)
Definition isWhiteSpace (c : ascii) : bool :=
  let n := N_of_ascii c in
  ((9 <=? n) && (n <=? 13) || (n =? 32) || (n =? 160))%N.

Fixpoint trimStart (s : string) : string :=
  match s with
  | EmptyString => EmptyString
  | String c s' => if isWhiteSpace c then trimStart s' else s
  end.

Fixpoint trimEnd (s : string) : string :=
  match s with
  | EmptyString => EmptyString
  | String c s' =>
      match trimEnd s' with
      | EmptyString => if isWhiteSpace c then EmptyString else String c EmptyString
      | t => String c t
      end
  end.

Definition trim (s : string) : string := trimEnd (trimStart s).

Fixpoint blank (s : string) : bool :=
  match s with
  | EmptyString => true
  | String c s' => isWhiteSpace c && blank s'
  end.

(** What [axios.get] of [/topics/...] comes to: an answer with a 2xx status
    and [response.data.slug], or an error with or without
    [err.response.status]. *)
Inductive TopicReply :=
| Answered (status : nat) (slug : string)
| Failed (responseStatus : option nat).

Inductive Effect :=
| PreventDefault
| Toast (title description : string)
| Navigate (path : string).

Definition quote : string := String (ascii_of_nat 34) EmptyString.

(** [handleKeyDown] (lines 58-92), with [get] the server behind
    [/topics/]; every toast is of the destructive variant. *)
Definition handleKeyDown (get : string → TopicReply) (key : string) (st : State)
  : list Effect :=
  if bool_decide (key = "Enter")
  then
    PreventDefault ::
    let trimmedTerm := trim (searchTerm st) in
    if bool_decide (trimmedTerm = "")
    then [Toast "Empty Search" "Please enter a topic name to search."]
    else
      match get trimmedTerm with
      | Answered status slug =>
          if status =? 200 then [Navigate ("/topics/" +:+ slug)] else []
      | Failed responseStatus =>
          if bool_decide (responseStatus = Some 404)
          then
            [Toast "Topic Not Found"
                   ("The topic " +:+ quote +:+ trimmedTerm +:+ quote
                    +:+ " does not exist.")]
          else
            [Toast "Search Error"
                   "An unexpected error occurred. Please try again later."]
      end
  else [].

(** What the component shows is coherent: an error message comes with no
    suggestion and without the "No results found" line, and that line
    comes with no suggestion and no error. *)
Definition coherent (st : State) : Prop :=
  (error st ≠ None → suggestions st = [] ∧ noResults st = false)
  ∧ (noResults st = true → suggestions st = [] ∧ error st = None).

End SearchBar.

(** ** Properties the claims are stated with *)

Definition faulty (w : World) : bool :=
  match faults w with true :: _ => true | _ => false end.

Definition advance (op : StoreOp) (w : World) : World :=
  mkWorld (users w) (tail (faults w)) (log w ++ [op]).

(** Section 4.1, "if targetId is not in followedUsers(actor), append it". *)
Definition addToSet (x : ObjectId) (l : list ObjectId) : list ObjectId :=
  if bool_decide (x ∈ l) then l else l ++ [x].

Definition setFollowedUsers (l : list ObjectId) (u : User) : User :=
  mkUser l (followers u) (bookmarkedResources u).

Definition setFollowers (l : list ObjectId) (u : User) : User :=
  mkUser (followedUsers u) l (bookmarkedResources u).

Definition setBookmarkedResources (l : list ObjectId) (u : User) : User :=
  mkUser (followedUsers u) (followers u) l.

(** The effect section 4.1 gives followUser and unfollowUser on the two
    records. *)
Definition specFollow (a b : ObjectId) (ua ub : User)
    (us : gmap ObjectId User) : gmap ObjectId User :=
  <[b := setFollowers (addToSet a (followers ub)) ub]>
    (<[a := setFollowedUsers (addToSet b (followedUsers ua)) ua]> us).

Definition specUnfollow (a b : ObjectId) (ua ub : User)
    (us : gmap ObjectId User) : gmap ObjectId User :=
  <[b := setFollowers (without a (followers ub)) ub]>
    (<[a := setFollowedUsers (without b (followedUsers ua)) ua]> us).

(** Section 3: A is in followers(B) exactly when B is in followedUsers(A). *)
Definition followConsistent (us : gmap ObjectId User) : Prop :=
  ∀ a b ua ub, us !! a = Some ua → us !! b = Some ub →
    a ∈ followers ub ↔ b ∈ followedUsers ua.

Definition occurrences (x : ObjectId) (l : list ObjectId) : nat :=
  length (filter (λ y, y = x) l).

(** The spec's scenario: alice (id 1) and bob (id 2), nobody follows
    anybody. *)
Definition alice : ObjectId := "000000000000000000000001".
Definition bob : ObjectId := "000000000000000000000002".
Definition carol : ObjectId := "000000000000000000000003".
Definition r1' : ObjectId := "0000000000000000000000f1".
Definition nobody : User := mkUser [] [] [].
Definition world0 : World :=
  mkWorld (<[alice := nobody]> (<[bob := nobody]> ∅)) [] [].

(** alice already follows bob. *)
Definition worldFollowing : World :=
  mkWorld (<[alice := mkUser [bob] [] []]> (<[bob := mkUser [] [alice] []]> ∅))
          [] [].

(** followUser(alice, bob) applied on alice's side only. *)
Definition worldPartial : World :=
  mkWorld (<[alice := mkUser [bob] [] []]> (<[bob := nobody]> ∅)) [] [].

(** dave's id has a letter among its digits: [daveUpper] is the same id
    written with that letter in upper case, as a request body may spell
    it, and [r1Upper] is the resource id [r1'] written that way. *)
Definition dave : ObjectId := "00000000000000000000000d".
Definition daveUpper : string := "00000000000000000000000D".
Definition r1Upper : string := "0000000000000000000000F1".

(** alice and dave, nobody follows anybody. *)
Definition worldDave : World :=
  mkWorld (<[alice := nobody]> (<[dave := nobody]> ∅)) [] [].

(** alice already follows dave. *)
Definition worldDaveFollowing : World :=
  mkWorld (<[alice := mkUser [dave] [] []]> (<[dave := mkUser [] [alice] []]> ∅))
          [] [].

(** followUser(alice, dave) applied on alice's side only. *)
Definition worldDavePartial : World :=
  mkWorld (<[alice := mkUser [dave] [] []]> (<[dave := nobody]> ∅)) [] [].

(** ** Properties of the other handler paths *)

(** [m] relates the users collection it starts from to the one it leaves,
    whatever it answers. *)
Definition keeps {X} (R : relation (gmap ObjectId User))
    (m : World → X * World) : Prop :=
  ∀ w, R (users w) (users (snd (m w))).

(** No record is added and none is removed. *)
Definition sameIds (us us' : gmap ObjectId User) : Prop := dom us' = dom us.

(** Only the bookmarks of [u] may differ. *)
Definition onlyBookmarksOf (u : ObjectId) (us us' : gmap ObjectId User) : Prop :=
  ∀ k, followedUsers <$> us' !! k = followedUsers <$> us !! k
       ∧ followers <$> us' !! k = followers <$> us !! k
       ∧ (k ≠ u → us' !! k = us !! k).

(** Only followedUsers of [a] and followers of the target may differ. *)
Definition onlyFollowOf (a : ObjectId) (target : option ObjectId)
    (us us' : gmap ObjectId User) : Prop :=
  ∀ k, bookmarkedResources <$> us' !! k = bookmarkedResources <$> us !! k
       ∧ (k ≠ a → followedUsers <$> us' !! k = followedUsers <$> us !! k)
       ∧ (Some k ≠ target → followers <$> us' !! k = followers <$> us !! k).

(** The id a follow or unfollow request names, once cast. *)
Definition targetOf (fieldName : string) (req : AuthRequest) : option ObjectId :=
  truthy (body req !! fieldName) ≫= ObjectId.cast.

Definition noDuplicates (us : gmap ObjectId User) : Prop :=
  ∀ k u, us !! k = Some u →
    NoDup (followedUsers u) ∧ NoDup (followers u)
    ∧ NoDup (bookmarkedResources u).

(** A world with the same records and log, and a store that no longer
    fails. *)
Definition recovered (w : World) : World := mkWorld (users w) [] (log w).

(** Every value [m] returns satisfies [Q]. *)
Definition returns {A} (Q : A → Prop) (m : M A) : Prop :=
  ∀ w a, fst (m w) = inr a → Q a.

(** alice has bookmarked a resource twice, with bob's id in between. *)
Definition worldBookmarked : World :=
  mkWorld (<[alice := mkUser [] [] [r1'; bob; r1']]> ∅) [] [].

(** The store of the scenario fails at its third round trip. *)
Definition worldFailing : World :=
  mkWorld (users world0) [false; false; true] [].

(** ** Running the store primitives *)

Lemma cast_nonempty s k : ObjectId.cast s = Some k → s ≠ "".
Proof. intros H ->. discriminate H. Qed.

Lemma truthy_cast s k : ObjectId.cast s = Some k → truthy (Some s) = Some s.
Proof.
  intros H. unfold truthy. rewrite bool_decide_false; [done|].
  by eapply cast_nonempty.
Qed.

Lemma truthy_absent x : x = None ∨ x = Some "" → truthy x = None.
Proof. by intros [-> | ->]. Qed.

Lemma findByKey_run k w :
  findByKey k w =
    if faulty w then (inl StoreUnavailable, advance (OpFindById k) w)
    else (inr (mkUserDoc k <$> users w !! k), advance (OpFindById k) w).
Proof. destruct w as [us [|[] fs] lg]; reflexivity. Qed.

Lemma save_run d p w :
  save d p w =
    if faulty w then (inl StoreUnavailable, advance (OpSave (_id d) p) w)
    else match users w !! _id d with
         | None => (inl DocumentNotFoundError, advance (OpSave (_id d) p) w)
         | Some u =>
             (inr (), mkWorld (<[_id d := writePath p (fields d) u]> (users w))
                              (tail (faults w)) (log w ++ [OpSave (_id d) p]))
         end.
Proof.
  destruct w as [us [|[] fs] lg]; try reflexivity;
    unfold save, roundTrip, readUsers, writeUsers, throw, mbind, M_bind, bind,
      faulty; cbn; destruct (us !! _id d); reflexivity.
Qed.

Lemma user_eta u : mkUser (followedUsers u) (followers u) (bookmarkedResources u) = u.
Proof. by destruct u. Qed.

Ltac unfold_await := unfold mbind, M_bind, bind, mret, M_ret, ret.

Ltac simpl_doc :=
  cbn [users _id fields writePath advance withFollowers withFollowedUsers
       withBookmarkedResources followedUsers followers bookmarkedResources].

(** A branch that ends in the catch block answers 500, which a world
    without faults rules out. *)
Ltac caught F :=
  eexists _, _; split; [reflexivity|]; split; [by left|];
  let HF := fresh in
  intros HF; exfalso; unfold faulty in F; cbn [faults advance] in F;
  rewrite HF in F; discriminate F.

Ltac fault_free :=
  let HF := fresh in
  intros HF; cbn [status faults advance]; rewrite HF; done.

Ltac on_fault F :=
  match goal with |- context [faulty ?x] => destruct (faulty x) eqn:F end;
  [caught F|].

(** ** What the four handlers do *)

Lemma follow_outcome a b ua w :
  a ≠ b → ObjectId.canonical b → users w !! a = Some ua →
  ∃ r w', follow a b w = Some (r, w') ∧
    (status r = 500
     ∨ (users w !! b = None
        ∧ r = mkRes 404 (JMessage "User to follow not found")
        ∧ users w' = users w ∧ log w' = log w ++ [OpFindById b])
     ∨ (∃ ub, users w !! b = Some ub
        ∧ r = mkRes 200 (JFollow (addToSet b (followedUsers ua))
                                 (addToSet a (followers ub)))
        ∧ users w' = specFollow a b ua ub (users w)))
    ∧ (faults w = [] → status r ≠ 500 ∧ faults w' = []).
Proof.
  intros Hab Hb Ha. unfold follow, asUser. rewrite Ha.
  unfold followUser. cbn [user body _id fields]. rewrite lookup_singleton_eq.
  rewrite (truthy_cast _ _ Hb), bool_decide_false by congruence.
  unfold tryCatch, findById. rewrite Hb.
  unfold mbind at 1. unfold M_bind, bind. rewrite findByKey_run.
  destruct (faulty w) eqn:F1; [caught F1|].
  simpl_doc.
  destruct (users w !! b) as [ub|] eqn:Hub; cbn [fmap option_fmap option_map].
  2:{ eexists _, _. split; [reflexivity|]. split; [|fault_free].
      right; left. done. }
  simpl_doc.
  unfold includes, specFollow, setFollowers, setFollowedUsers, addToSet, push,
    pushId.
  rewrite Hb.
  destruct (bool_decide (b ∈ followedUsers ua)) eqn:E1; cbn [negb];
    destruct (bool_decide (a ∈ followers ub)) eqn:E2; cbn [negb]; unfold_await.
  - eexists _, _. split; [reflexivity|]. split; [|fault_free].
    right; right. exists ub. rewrite E2. split; [done|]. split; [done|].
    simpl_doc. rewrite !user_eta, (insert_id _ a) by done. by rewrite insert_id.
  - rewrite save_run. on_fault F2. simpl_doc. rewrite Hub.
    eexists _, _. split; [reflexivity|]. split; [|fault_free].
    right; right. exists ub. rewrite E2. split; [done|]. split; [done|].
    simpl_doc. by rewrite !user_eta, (insert_id _ a).
  - rewrite save_run. on_fault F2. simpl_doc. rewrite Ha.
    eexists _, _. split; [reflexivity|]. split; [|fault_free].
    right; right. exists ub. rewrite E2. split; [done|]. split; [done|].
    simpl_doc. rewrite !user_eta, (insert_id _ b); [done|].
    by rewrite lookup_insert_ne.
  - rewrite save_run. on_fault F2. simpl_doc. rewrite Ha.
    rewrite save_run. on_fault F3. simpl_doc.
    rewrite lookup_insert_ne by done. rewrite Hub.
    eexists _, _. split; [reflexivity|]. split; [|fault_free].
    right; right. exists ub. rewrite E2. done.
Qed.

Lemma without_absent x (l : list ObjectId) : x ∉ l → without x l = l.
Proof.
  intros Hx. unfold without. induction l as [|y l IH]; [done|].
  apply not_elem_of_cons in Hx as [Hxy Hl].
  rewrite filter_cons_True by done. by rewrite IH.
Qed.

Lemma without_app_fresh x (l : list ObjectId) : x ∉ l → without x (l ++ [x]) = l.
Proof.
  intros Hx. unfold without. rewrite filter_app, filter_cons_False by (by intros ?).
  rewrite filter_nil, app_nil_r. by apply without_absent.
Qed.

Lemma not_elem_of_without x (l : list ObjectId) : x ∉ without x l.
Proof. unfold without. rewrite list_elem_of_filter. by intros [? _]. Qed.

Lemma elem_of_without x y (l : list ObjectId) :
  y ∈ without x l ↔ y ≠ x ∧ y ∈ l.
Proof. unfold without. by rewrite list_elem_of_filter. Qed.

Lemma elem_of_addToSet x y (l : list ObjectId) :
  y ∈ addToSet x l ↔ y = x ∨ y ∈ l.
Proof.
  unfold addToSet. case_bool_decide as Hx.
  - split; [by right|]. by intros [-> | ?].
  - rewrite elem_of_app, list_elem_of_singleton. tauto.
Qed.

Lemma NoDup_addToSet x (l : list ObjectId) : NoDup l → NoDup (addToSet x l).
Proof.
  intros Hl. unfold addToSet. case_bool_decide as Hx; [done|].
  apply NoDup_app. split; [done|]. split; [|apply NoDup_singleton].
  intros y Hy ->%list_elem_of_singleton. done.
Qed.

Lemma addToSet_idem x (l : list ObjectId) : addToSet x (addToSet x l) = addToSet x l.
Proof.
  unfold addToSet at 1. rewrite bool_decide_true; [done|].
  apply elem_of_addToSet. by left.
Qed.

Lemma unfollow_outcome a b ua w :
  a ≠ b → ObjectId.canonical b → users w !! a = Some ua →
  ∃ r w', unfollow a b w = Some (r, w') ∧
    (status r = 500
     ∨ (users w !! b = None
        ∧ r = mkRes 404 (JMessage "User to unfollow not found")
        ∧ users w' = users w ∧ log w' = log w ++ [OpFindById b])
     ∨ (∃ ub, users w !! b = Some ub
        ∧ r = mkRes 200 (JFollow (without b (followedUsers ua))
                                 (without a (followers ub)))
        ∧ users w' = specUnfollow a b ua ub (users w)))
    ∧ (faults w = [] → status r ≠ 500 ∧ faults w' = []).
Proof.
  intros Hab Hb Ha. unfold unfollow, asUser. rewrite Ha.
  unfold unfollowUser. cbn [user body _id fields]. rewrite lookup_singleton_eq.
  rewrite (truthy_cast _ _ Hb), bool_decide_false by congruence.
  unfold tryCatch, findById. rewrite Hb.
  unfold mbind at 1. unfold M_bind, bind. rewrite findByKey_run.
  destruct (faulty w) eqn:F1; [caught F1|].
  simpl_doc.
  destruct (users w !! b) as [ub|] eqn:Hub; cbn [fmap option_fmap option_map].
  2:{ eexists _, _. split; [reflexivity|]. split; [|fault_free].
      right; left. done. }
  simpl_doc.
  unfold includes, specUnfollow, setFollowers, setFollowedUsers.
  destruct (bool_decide (b ∈ followedUsers ua)) eqn:E1;
    destruct (bool_decide (a ∈ followers ub)) eqn:E2; unfold_await;
    try apply bool_decide_eq_false in E1; try apply bool_decide_eq_false in E2.
  - rewrite save_run. on_fault F2. simpl_doc. rewrite Ha.
    rewrite save_run. on_fault F3. simpl_doc.
    rewrite lookup_insert_ne by done. rewrite Hub.
    eexists _, _. split; [reflexivity|]. split; [|fault_free].
    right; right. exists ub. done.
  - rewrite save_run. on_fault F2. simpl_doc. rewrite Ha.
    eexists _, _. split; [reflexivity|]. split; [|fault_free].
    right; right. exists ub. rewrite (without_absent a) by done.
    split; [done|]. split; [done|].
    simpl_doc. rewrite !user_eta, (insert_id _ b); [done|].
    by rewrite lookup_insert_ne.
  - rewrite save_run. on_fault F2. simpl_doc. rewrite Hub.
    eexists _, _. split; [reflexivity|]. split; [|fault_free].
    right; right. exists ub. rewrite (without_absent b) by done.
    split; [done|]. split; [done|].
    simpl_doc. by rewrite !user_eta, (insert_id _ a).
  - eexists _, _. split; [reflexivity|]. split; [|fault_free].
    right; right. exists ub.
    rewrite (without_absent a), (without_absent b) by done.
    split; [done|]. split; [done|].
    simpl_doc. rewrite !user_eta, (insert_id _ a) by done. by rewrite insert_id.
Qed.

Lemma bookmark_outcome u r uu w :
  ObjectId.canonical r → users w !! u = Some uu →
  ∃ res w', bookmark u r w = Some (res, w') ∧
    (status res = 500
     ∨ (res = mkRes 200 (JIds (addToSet r (bookmarkedResources uu)))
        ∧ users w' =
            <[u := setBookmarkedResources (addToSet r (bookmarkedResources uu)) uu]>
              (users w)))
    ∧ (faults w = [] → status res ≠ 500 ∧ faults w' = []).
Proof.
  intros Hr Hu. unfold bookmark, asUser. rewrite Hu.
  unfold bookmarkResource. cbn [user body _id fields].
  rewrite lookup_singleton_eq, (truthy_cast _ _ Hr).
  unfold tryCatch. unfold mbind at 1. unfold M_bind, bind.
  rewrite findByKey_run.
  destruct (faulty w) eqn:F1; [caught F1|].
  simpl_doc. rewrite Hu. cbn [fmap option_fmap option_map]. simpl_doc.
  unfold includes, setBookmarkedResources, addToSet, push. rewrite Hr.
  destruct (bool_decide (r ∈ bookmarkedResources uu)) eqn:E; cbn [negb];
    unfold_await.
  - eexists _, _. split; [reflexivity|]. split; [|fault_free].
    right. split; [done|]. simpl_doc. by rewrite user_eta, insert_id.
  - rewrite save_run. on_fault F2. simpl_doc. rewrite Hu.
    eexists _, _. split; [reflexivity|]. split; [|fault_free]. by right.
Qed.

Lemma unbookmark_outcome u r uu w :
  r ≠ "" → users w !! u = Some uu →
  ∃ res w', unbookmark u r w = Some (res, w') ∧
    (status res = 500
     ∨ (res = mkRes 200 (JIds (without r (bookmarkedResources uu)))
        ∧ users w' =
            <[u := setBookmarkedResources (without r (bookmarkedResources uu)) uu]>
              (users w)))
    ∧ (faults w = [] → status res ≠ 500 ∧ faults w' = []).
Proof.
  intros Hr Hu. unfold unbookmark, asUser. rewrite Hu.
  unfold unbookmarkResource. cbn [user body _id fields].
  rewrite lookup_singleton_eq. unfold truthy. rewrite bool_decide_false by done.
  unfold tryCatch. unfold mbind at 1. unfold M_bind, bind.
  rewrite findByKey_run.
  destruct (faulty w) eqn:F1; [caught F1|].
  simpl_doc. rewrite Hu. cbn [fmap option_fmap option_map]. simpl_doc.
  unfold includes, setBookmarkedResources.
  destruct (bool_decide (r ∈ bookmarkedResources uu)) eqn:E; unfold_await.
  - rewrite save_run. on_fault F2. simpl_doc. rewrite Hu.
    eexists _, _. split; [reflexivity|]. split; [|fault_free]. by right.
  - apply bool_decide_eq_false in E.
    eexists _, _. split; [reflexivity|]. split; [|fault_free].
    right. rewrite (without_absent r) by done. split; [done|].
    simpl_doc. by rewrite user_eta, insert_id.
Qed.

(** Without faults a call between two existing, distinct users answers 200
    and has the effect of section 4.1. *)
Lemma follow_ok a b ua ub w :
  a ≠ b → ObjectId.canonical b → faults w = [] →
  users w !! a = Some ua → users w !! b = Some ub →
  ∃ w', follow a b w =
          Some (mkRes 200 (JFollow (addToSet b (followedUsers ua))
                                   (addToSet a (followers ub))), w')
        ∧ users w' = specFollow a b ua ub (users w) ∧ faults w' = [].
Proof.
  intros Hab Hb HF Ha Hub.
  destruct (follow_outcome a b ua w Hab Hb Ha) as (r & w' & Hrun & Hcase & Hok).
  destruct (Hok HF) as [H500 HF']. exists w'.
  destruct Hcase as [?|[(Hnone & _)|(ub' & Hub' & -> & Hus)]]; [done|congruence|].
  rewrite Hub in Hub'. by simplify_eq.
Qed.

Lemma unfollow_ok a b ua ub w :
  a ≠ b → ObjectId.canonical b → faults w = [] →
  users w !! a = Some ua → users w !! b = Some ub →
  ∃ w', unfollow a b w =
          Some (mkRes 200 (JFollow (without b (followedUsers ua))
                                   (without a (followers ub))), w')
        ∧ users w' = specUnfollow a b ua ub (users w) ∧ faults w' = [].
Proof.
  intros Hab Hb HF Ha Hub.
  destruct (unfollow_outcome a b ua w Hab Hb Ha) as (r & w' & Hrun & Hcase & Hok).
  destruct (Hok HF) as [H500 HF']. exists w'.
  destruct Hcase as [?|[(Hnone & _)|(ub' & Hub' & -> & Hus)]]; [done|congruence|].
  rewrite Hub in Hub'. by simplify_eq.
Qed.

Lemma specFollow_lookup_actor a b ua ub us :
  a ≠ b →
  specFollow a b ua ub us !! a
  = Some (setFollowedUsers (addToSet b (followedUsers ua)) ua).
Proof.
  intros Hab. unfold specFollow.
  rewrite lookup_insert_ne by done. by rewrite lookup_insert_eq.
Qed.

Lemma specFollow_lookup_target a b ua ub us :
  specFollow a b ua ub us !! b
  = Some (setFollowers (addToSet a (followers ub)) ub).
Proof. unfold specFollow. by rewrite lookup_insert_eq. Qed.

Lemma specFollow_lookup_other a b ua ub us c :
  c ≠ a → c ≠ b → specFollow a b ua ub us !! c = us !! c.
Proof. intros Ha Hb. unfold specFollow. by rewrite !lookup_insert_ne. Qed.

Lemma specUnfollow_lookup_actor a b ua ub us :
  a ≠ b →
  specUnfollow a b ua ub us !! a
  = Some (setFollowedUsers (without b (followedUsers ua)) ua).
Proof.
  intros Hab. unfold specUnfollow.
  rewrite lookup_insert_ne by done. by rewrite lookup_insert_eq.
Qed.

Lemma specUnfollow_lookup_target a b ua ub us :
  specUnfollow a b ua ub us !! b
  = Some (setFollowers (without a (followers ub)) ub).
Proof. unfold specUnfollow. by rewrite lookup_insert_eq. Qed.

Lemma specUnfollow_lookup_other a b ua ub us c :
  c ≠ a → c ≠ b → specUnfollow a b ua ub us !! c = us !! c.
Proof. intros Ha Hb. unfold specUnfollow. by rewrite !lookup_insert_ne. Qed.

(** ** The follow relation stays mirrored *)

Lemma specFollow_lookup a b ua ub us x ux :
  a ≠ b → us !! a = Some ua → us !! b = Some ub →
  specFollow a b ua ub us !! x = Some ux →
  ∃ ux0, us !! x = Some ux0
    ∧ followers ux
      = (if decide (x = b) then addToSet a (followers ux0) else followers ux0)
    ∧ followedUsers ux
      = (if decide (x = a) then addToSet b (followedUsers ux0)
         else followedUsers ux0).
Proof.
  intros Hab Ha Hb Hx.
  destruct (decide (x = a)) as [->|Hxa].
  - rewrite specFollow_lookup_actor in Hx by done. simplify_eq.
    exists ua. by rewrite decide_False.
  - destruct (decide (x = b)) as [->|Hxb].
    + rewrite specFollow_lookup_target in Hx. simplify_eq. by exists ub.
    + rewrite specFollow_lookup_other in Hx by done. by exists ux.
Qed.

Lemma specUnfollow_lookup a b ua ub us x ux :
  a ≠ b → us !! a = Some ua → us !! b = Some ub →
  specUnfollow a b ua ub us !! x = Some ux →
  ∃ ux0, us !! x = Some ux0
    ∧ followers ux
      = (if decide (x = b) then without a (followers ux0) else followers ux0)
    ∧ followedUsers ux
      = (if decide (x = a) then without b (followedUsers ux0)
         else followedUsers ux0).
Proof.
  intros Hab Ha Hb Hx.
  destruct (decide (x = a)) as [->|Hxa].
  - rewrite specUnfollow_lookup_actor in Hx by done. simplify_eq.
    exists ua. by rewrite decide_False.
  - destruct (decide (x = b)) as [->|Hxb].
    + rewrite specUnfollow_lookup_target in Hx. simplify_eq. by exists ub.
    + rewrite specUnfollow_lookup_other in Hx by done. by exists ux.
Qed.

Lemma specFollow_consistent a b ua ub us :
  a ≠ b → us !! a = Some ua → us !! b = Some ub →
  followConsistent us → followConsistent (specFollow a b ua ub us).
Proof.
  intros Hab Ha Hb Hinv x y ux uy Hx Hy.
  destruct (specFollow_lookup _ _ _ _ _ _ _ Hab Ha Hb Hx)
    as (ux0 & Hx0 & _ & ->).
  destruct (specFollow_lookup _ _ _ _ _ _ _ Hab Ha Hb Hy)
    as (uy0 & Hy0 & -> & _).
  specialize (Hinv x y ux0 uy0 Hx0 Hy0).
  repeat case_decide; rewrite ?elem_of_addToSet; intuition congruence.
Qed.

Lemma specUnfollow_consistent a b ua ub us :
  a ≠ b → us !! a = Some ua → us !! b = Some ub →
  followConsistent us → followConsistent (specUnfollow a b ua ub us).
Proof.
  intros Hab Ha Hb Hinv x y ux uy Hx Hy.
  destruct (specUnfollow_lookup _ _ _ _ _ _ _ Hab Ha Hb Hx)
    as (ux0 & Hx0 & _ & ->).
  destruct (specUnfollow_lookup _ _ _ _ _ _ _ Hab Ha Hb Hy)
    as (uy0 & Hy0 & -> & _).
  specialize (Hinv x y ux0 uy0 Hx0 Hy0).
  repeat case_decide; rewrite ?elem_of_without; intuition congruence.
Qed.

(** C1, as amended.  For distinct users A and B, with B's id sent in its
    printed form: a call of followUser or unfollowUser by A on B that is
    not answered 500 keeps "A in followers(B) iff B in followedUsers(A)"
    true of every pair of records, and a followUser answered 200 leaves B
    in followedUsers(A) and A in followers(B).  With a store that answers
    every call no call is answered 500, and followUser on an existing B is
    answered 200. *)
Theorem follow_relation_mirrored a b w :
  a ≠ b → ObjectId.canonical b → followConsistent (users w) →
  (∀ r w', follow a b w = Some (r, w') → status r ≠ 500 →
     followConsistent (users w')
     ∧ (status r = 200 →
        ∃ ua' ub', users w' !! a = Some ua' ∧ users w' !! b = Some ub'
          ∧ b ∈ followedUsers ua' ∧ a ∈ followers ub'))
  ∧ (∀ r w', unfollow a b w = Some (r, w') → status r ≠ 500 →
       followConsistent (users w'))
  ∧ (faults w = [] → is_Some (users w !! a) →
     (∃ r w', follow a b w = Some (r, w') ∧ status r ≠ 500
        ∧ (is_Some (users w !! b) → status r = 200))
     ∧ (∃ r w', unfollow a b w = Some (r, w') ∧ status r ≠ 500)).
Proof.
  intros Hab Hb Hinv. split; [|split].
  - intros r w' Hrun H500.
    destruct (users w !! a) as [ua|] eqn:Ha;
      [|by unfold follow, asUser in Hrun; rewrite Ha in Hrun].
    destruct (follow_outcome a b ua w Hab Hb Ha) as (r0 & w0 & Hrun0 & Hcase & _).
    rewrite Hrun in Hrun0. simplify_eq.
    destruct Hcase as [?|[(Hnone & -> & Hus & _)|(ub & Hub & -> & Hus)]]; [done|..].
    + rewrite Hus. split; [done|]. cbn. discriminate.
    + rewrite Hus. split; [by apply specFollow_consistent|]. intros _.
      eexists _, _. rewrite specFollow_lookup_actor, specFollow_lookup_target by done.
      split; [done|]. split; [done|].
      cbn [setFollowedUsers setFollowers followedUsers followers].
      rewrite !elem_of_addToSet. by split; left.
  - intros r w' Hrun H500.
    destruct (users w !! a) as [ua|] eqn:Ha;
      [|by unfold unfollow, asUser in Hrun; rewrite Ha in Hrun].
    destruct (unfollow_outcome a b ua w Hab Hb Ha)
      as (r0 & w0 & Hrun0 & Hcase & _).
    rewrite Hrun in Hrun0. simplify_eq.
    destruct Hcase as [?|[(Hnone & -> & Hus & _)|(ub & Hub & -> & Hus)]]; [done|..].
    + by rewrite Hus.
    + rewrite Hus. by apply specUnfollow_consistent.
  - intros HF [ua Ha]. split.
    + destruct (follow_outcome a b ua w Hab Hb Ha) as (r & w' & Hrun & Hcase & Hok).
      destruct (Hok HF) as [H500 _]. exists r, w'. split; [done|]. split; [done|].
      intros [ub Hub].
      destruct Hcase as [?|[(Hnone & _)|(ub' & _ & -> & _)]]; [done|congruence|done].
    + destruct (unfollow_outcome a b ua w Hab Hb Ha) as (r & w' & Hrun & _ & Hok).
      destruct (Hok HF) as [H500 _]. by exists r, w'.
Qed.

Lemma followConsistent_world0 : followConsistent (users world0).
Proof.
  intros a b ua ub Ha Hb. cbn [users world0] in Ha, Hb.
  apply lookup_insert_Some in Ha as [[_ <-]|[_ Ha]];
    [|apply lookup_insert_Some in Ha as [[_ <-]|[_ Ha]]; [|done]];
    (apply lookup_insert_Some in Hb as [[_ <-]|[_ Hb]];
     [|apply lookup_insert_Some in Hb as [[_ <-]|[_ Hb]]; [|done]]);
    cbn; by rewrite !elem_of_nil.
Qed.

Lemma follow_relation_mirrored_witness :
  alice ≠ bob ∧ ObjectId.canonical bob ∧ followConsistent (users world0)
  ∧ ∃ r w', follow alice bob world0 = Some (r, w') ∧ status r = 200
      ∧ followConsistent (users w').
Proof.
  assert (Hab : alice ≠ bob) by discriminate.
  assert (Hb : ObjectId.canonical bob) by reflexivity.
  pose proof (follow_relation_mirrored alice bob world0 Hab Hb
                followConsistent_world0) as (Hfollow & _ & Hruns).
  destruct Hruns as [(r & w' & Hrun & H500 & H200) _];
    [reflexivity | by eexists; vm_compute |].
  split; [done|]. split; [done|]. split; [exact followConsistent_world0|].
  exists r, w'. split; [done|]. split; [apply H200; by eexists; vm_compute|].
  by apply (Hfollow r w' Hrun).
Defined.

(** C1 as stated fails: the two sides are written by two saves, one after
    the other.  When the store fails at the second save, followUser(alice,
    bob) is answered 500 with bob in followedUsers(alice) and alice not in
    followers(bob): the relation, mirrored before the call, is not after
    it. *)
Lemma follow_relation_diverges :
  followConsistent (users worldFailing)
  ∧ ∃ r w',
      follow alice bob worldFailing = Some (r, w')
      ∧ status r = 500
      ∧ users w' !! alice = Some (mkUser [bob] [] [])
      ∧ users w' !! bob = Some nobody
      ∧ ¬ followConsistent (users w').
Proof.
  split; [exact followConsistent_world0|].
  eexists _, _. split; [vm_compute; reflexivity|]. split; [reflexivity|].
  split; [by vm_compute|]. split; [by vm_compute|].
  intros Hinv.
  assert (Hin : alice ∈ followers nobody).
  { eapply (Hinv alice bob (mkUser [bob] [] []) nobody); [by vm_compute..|].
    cbn. apply list_elem_of_here. }
  by apply elem_of_nil in Hin.
Qed.

(** The spelling of the id matters to unfollowUser: with dave's id written
    in upper case the call is answered 200, alice is removed from
    followers(dave), and dave stays in followedUsers(alice). *)
Example unfollow_upper_case_one_sided :
  ObjectId.cast daveUpper = Some dave
  ∧ (λ rw, (fst rw, users (snd rw) !! alice, users (snd rw) !! dave))
      <$> unfollow alice daveUpper worldDaveFollowing
    = Some (mkRes 200 (JFollow [dave] []),
            Some (mkUser [dave] [] []), Some nobody).
Proof. split; by vm_compute. Qed.

(** ** Idempotence and round trip *)

Lemma specFollow_idem a b ua ub us :
  a ≠ b →
  specFollow a b (setFollowedUsers (addToSet b (followedUsers ua)) ua)
    (setFollowers (addToSet a (followers ub)) ub) (specFollow a b ua ub us)
  = specFollow a b ua ub us.
Proof.
  intros Hab. unfold specFollow at 1.
  unfold setFollowedUsers at 1 2. unfold setFollowers at 1 2.
  cbn [followedUsers followers bookmarkedResources].
  rewrite !addToSet_idem.
  rewrite (insert_id _ a).
  - rewrite insert_id; [done|]. apply specFollow_lookup_target.
  - by apply specFollow_lookup_actor.
Qed.

(** C2. followUser(alice, dave) twice, with dave's id written in upper case
    in the body: both calls are answered 200, and the second appends dave
    to followedUsers(alice) a second time.  The membership test of line 134
    compares the string of the body with the printed ids, the push of line
    135 casts it; the test of line 140, made with an ObjectId, does find
    alice in followers(dave). *)
Lemma followUser_twice_duplicates :
  ObjectId.cast daveUpper = Some dave
  ∧ ∃ w1 w2,
      follow alice daveUpper worldDave
      = Some (mkRes 200 (JFollow [dave] [alice]), w1)
      ∧ follow alice daveUpper w1
        = Some (mkRes 200 (JFollow [dave; dave] [alice]), w2)
      ∧ users w1 !! alice = Some (mkUser [dave] [] [])
      ∧ users w2 !! alice = Some (mkUser [dave; dave] [] [])
      ∧ users w2 ≠ users w1.
Proof.
  split; [reflexivity|]. eexists _, _.
  split; [vm_compute; reflexivity|]. split; [vm_compute; reflexivity|].
  split; [by vm_compute|]. split; [by vm_compute|].
  intros Heq. apply (f_equal (λ us, us !! alice)) in Heq.
  vm_compute in Heq. discriminate Heq.
Qed.

(** X26. For distinct existing users A and B, with B's id sent in its
    printed form, and a store without faults, a second followUser(A,B) is
    answered 200 with the same lists as the first and leaves the users
    collection exactly as the first call left it; followedUsers(A) and
    followers(B) are the starting lists with the id appended when it was
    missing, so a list without duplicates stays without duplicates. *)
Theorem followUser_idempotent a b ua ub w :
  a ≠ b → ObjectId.canonical b → faults w = [] →
  users w !! a = Some ua → users w !! b = Some ub →
  ∃ r1 w1 r2 w2,
    follow a b w = Some (r1, w1) ∧ follow a b w1 = Some (r2, w2)
    ∧ status r1 = 200 ∧ r2 = r1 ∧ users w2 = users w1
    ∧ ∃ ua' ub', users w2 !! a = Some ua' ∧ users w2 !! b = Some ub'
        ∧ followedUsers ua' = addToSet b (followedUsers ua)
        ∧ followers ub' = addToSet a (followers ub)
        ∧ (NoDup (followedUsers ua) → NoDup (followedUsers ua'))
        ∧ (NoDup (followers ub) → NoDup (followers ub')).
Proof.
  intros Hab Hb HF Ha Hub.
  destruct (follow_ok a b ua ub w Hab Hb HF Ha Hub) as (w1 & Hrun1 & Hus1 & HF1).
  assert (Ha1 : users w1 !! a
                = Some (setFollowedUsers (addToSet b (followedUsers ua)) ua))
    by (rewrite Hus1; by apply specFollow_lookup_actor).
  assert (Hb1 : users w1 !! b = Some (setFollowers (addToSet a (followers ub)) ub))
    by (rewrite Hus1; by apply specFollow_lookup_target).
  destruct (follow_ok a b _ _ w1 Hab Hb HF1 Ha1 Hb1) as (w2 & Hrun2 & Hus2 & HF2).
  cbn [setFollowedUsers setFollowers followedUsers followers] in Hrun2.
  rewrite !addToSet_idem in Hrun2.
  rewrite Hus1, specFollow_idem in Hus2 by done.
  eexists _, w1, _, w2. split; [exact Hrun1|]. split; [exact Hrun2|].
  split; [done|]. split; [done|]. split; [by rewrite Hus2, Hus1|].
  eexists _, _. rewrite Hus2, specFollow_lookup_actor, specFollow_lookup_target
    by done.
  split; [done|]. split; [done|].
  cbn [setFollowedUsers setFollowers followedUsers followers].
  split; [done|]. split; [done|]. split; apply NoDup_addToSet.
Qed.

Lemma followUser_idempotent_witness :
  ∃ w1 w2,
    follow alice bob world0 = Some (mkRes 200 (JFollow [bob] [alice]), w1)
    ∧ follow alice bob w1 = Some (mkRes 200 (JFollow [bob] [alice]), w2)
    ∧ users w2 = users w1.
Proof.
  destruct (followUser_idempotent alice bob nobody nobody world0)
    as (r1 & w1 & r2 & w2 & Hrun1 & Hrun2 & _ & -> & Hus & _);
    [discriminate | reflexivity | reflexivity | by vm_compute | by vm_compute |].
  assert (Hr : r1 = mkRes 200 (JFollow [bob] [alice]))
    by (vm_compute in Hrun1; injection Hrun1 as <- _; reflexivity).
  subst r1. exists w1, w2. split; [exact Hrun1|]. split; [exact Hrun2|exact Hus].
Defined.

(** C3. followUser by dave on his own id, written in upper case in the
    body: the comparison of line 123 is between strings and does not fire,
    the lookup of line 128 casts the string and finds dave, and the call is
    answered 200 with dave in his own followedUsers and followers. *)
Lemma followUser_self_spelled_upper :
  ObjectId.cast daveUpper = Some dave
  ∧ ∃ w',
      follow dave daveUpper worldDave
      = Some (mkRes 200 (JFollow [dave] [dave]), w')
      ∧ users worldDave !! dave = Some nobody
      ∧ users w' !! dave = Some (mkUser [dave] [dave] []).
Proof.
  split; [reflexivity|]. eexists.
  split; [vm_compute; reflexivity|]. split; by vm_compute.
Qed.

Lemma specUnfollow_specFollow a b ua ub us :
  a ≠ b → us !! a = Some ua → us !! b = Some ub →
  b ∉ followedUsers ua → a ∉ followers ub →
  specUnfollow a b (setFollowedUsers (addToSet b (followedUsers ua)) ua)
    (setFollowers (addToSet a (followers ub)) ub) (specFollow a b ua ub us)
  = us.
Proof.
  intros Hab Ha Hb Hfa Hfb. unfold specUnfollow, specFollow, addToSet.
  rewrite !bool_decide_false by done.
  unfold setFollowedUsers, setFollowers.
  cbn [followedUsers followers bookmarkedResources].
  rewrite !without_app_fresh, !user_eta by done.
  apply map_eq. intros k.
  destruct (decide (k = b)) as [->|Hkb]; [by rewrite lookup_insert_eq|].
  rewrite lookup_insert_ne by done.
  destruct (decide (k = a)) as [->|Hka]; [by rewrite lookup_insert_eq|].
  by rewrite !lookup_insert_ne.
Qed.

(** C4, as amended.  For distinct existing users A and B, with B's id sent
    in its printed form, a store without faults and a starting state in
    which A does not follow B on either side (B not in followedUsers(A), A
    not in followers(B)): followUser(A,B) then unfollowUser(A,B) are both
    answered 200 and leave the users collection exactly as it was before
    the follow. *)
Theorem follow_unfollow_roundtrip a b ua ub w :
  a ≠ b → ObjectId.canonical b → faults w = [] →
  users w !! a = Some ua → users w !! b = Some ub →
  b ∉ followedUsers ua → a ∉ followers ub →
  ∃ r1 w1 w2,
    follow a b w = Some (r1, w1) ∧ status r1 = 200
    ∧ unfollow a b w1
      = Some (mkRes 200 (JFollow (followedUsers ua) (followers ub)), w2)
    ∧ users w2 = users w.
Proof.
  intros Hab Hb HF Ha Hub Hfa Hfb.
  destruct (follow_ok a b ua ub w Hab Hb HF Ha Hub) as (w1 & Hrun1 & Hus1 & HF1).
  assert (Ha1 : users w1 !! a
                = Some (setFollowedUsers (addToSet b (followedUsers ua)) ua))
    by (rewrite Hus1; by apply specFollow_lookup_actor).
  assert (Hb1 : users w1 !! b = Some (setFollowers (addToSet a (followers ub)) ub))
    by (rewrite Hus1; by apply specFollow_lookup_target).
  destruct (unfollow_ok a b _ _ w1 Hab Hb HF1 Ha1 Hb1) as (w2 & Hrun2 & Hus2 & _).
  rewrite Hus1, specUnfollow_specFollow in Hus2 by done.
  cbn [setFollowedUsers setFollowers followedUsers followers] in Hrun2.
  unfold addToSet in Hrun2. rewrite !bool_decide_false in Hrun2 by done.
  rewrite !without_app_fresh in Hrun2 by done.
  eexists _, w1, w2. split; [exact Hrun1|]. done.
Qed.

Lemma follow_unfollow_roundtrip_witness :
  ∃ r1 w1 w2,
    follow alice bob world0 = Some (r1, w1) ∧ status r1 = 200
    ∧ unfollow alice bob w1 = Some (mkRes 200 (JFollow [] []), w2)
    ∧ users w2 = users world0.
Proof.
  apply (follow_unfollow_roundtrip alice bob nobody nobody world0).
  - discriminate.
  - reflexivity.
  - reflexivity.
  - by vm_compute.
  - by vm_compute.
  - apply not_elem_of_nil.
  - apply not_elem_of_nil.
Defined.

(** C4 as stated fails: when A already follows B, followUser(A,B) changes
    nothing and unfollowUser(A,B) then removes the edge that was there
    before the follow. *)
Lemma follow_unfollow_not_roundtrip :
  ∃ r1 w1 r2 w2,
    follow alice bob worldFollowing = Some (r1, w1)
    ∧ unfollow alice bob w1 = Some (r2, w2)
    ∧ status r1 = 200 ∧ status r2 = 200
    ∧ users worldFollowing !! alice = Some (mkUser [bob] [] [])
    ∧ users w2 !! alice = Some (mkUser [] [] [])
    ∧ users w2 ≠ users worldFollowing.
Proof.
  eexists _, _, _, _.
  split; [vm_compute; reflexivity|].
  split; [vm_compute; reflexivity|].
  split; [reflexivity|]. split; [reflexivity|].
  split; [by vm_compute|]. split; [by vm_compute|].
  intros Heq. apply (f_equal (λ us, us !! alice)) in Heq.
  vm_compute in Heq. discriminate Heq.
Qed.

(** The round trip depends on the spelling too: with dave's id written in
    upper case, followUser then unfollowUser from a state without the edge
    are both answered 200 and leave dave in followedUsers(alice). *)
Example follow_unfollow_upper_case :
  (λ rw, (fst rw, users (snd rw) !! alice, users (snd rw) !! dave))
    <$> (follow alice daveUpper worldDave
         ≫= λ rw, unfollow alice daveUpper (snd rw))
  = Some (mkRes 200 (JFollow [dave] []),
          Some (mkUser [dave] [] []), Some nobody).
Proof. by vm_compute. Qed.

(** ** Missing targets and missing fields *)

(** C5. For an existing user A and a target string that is a well-formed
    id resolving to no User record, when the store answers the lookup,
    followUser answers 404 "User to follow not found"; the only round trip
    made is that lookup, no record is written, and A's record (so its
    followedUsers) is as before. *)
Theorem followUser_target_missing a t k ua w :
  ObjectId.canonical a → users w !! a = Some ua →
  ObjectId.cast t = Some k → users w !! k = None → faulty w = false →
  ∃ w', follow a t w
        = Some (mkRes 404 (JMessage "User to follow not found"), w')
    ∧ users w' = users w
    ∧ users w' !! a = Some ua
    ∧ log w' = log w ++ [OpFindById k].
Proof.
  intros Hcan Ha Ht Hk HF.
  assert (Hta : t ≠ a).
  { intros ->. unfold ObjectId.canonical in Hcan. congruence. }
  exists (advance (OpFindById k) w). split; [|done].
  unfold follow, asUser. rewrite Ha.
  unfold followUser. cbn [user body _id fields]. rewrite lookup_singleton_eq.
  rewrite (truthy_cast _ _ Ht), bool_decide_false by done.
  unfold tryCatch, findById. rewrite Ht.
  unfold mbind at 1. unfold M_bind, bind.
  rewrite findByKey_run, HF. simpl_doc. by rewrite Hk.
Qed.

Lemma followUser_target_missing_witness :
  ∃ w', follow alice carol world0
        = Some (mkRes 404 (JMessage "User to follow not found"), w')
    ∧ users w' = users world0
    ∧ users w' !! alice = Some nobody
    ∧ log w' = [OpFindById carol].
Proof.
  apply (followUser_target_missing alice carol carol nobody world0).
  - reflexivity.
  - by vm_compute.
  - reflexivity.
  - by vm_compute.
  - reflexivity.
Defined.

(** C10. bookmarkResource and unbookmarkResource on a body whose resourceId
    is missing or empty answer 400 "Resource ID is required" and return the
    world as it was: no round trip to the store, no record changed. *)
Theorem bookmark_requires_resourceId req w :
  body req !! "resourceId" = None ∨ body req !! "resourceId" = Some "" →
  bookmarkResource req w = (mkRes 400 (JMessage "Resource ID is required"), w)
  ∧ unbookmarkResource req w
    = (mkRes 400 (JMessage "Resource ID is required"), w).
Proof.
  intros Habsent%truthy_absent.
  unfold bookmarkResource, unbookmarkResource. by rewrite Habsent.
Qed.

Lemma bookmark_requires_resourceId_witness :
  bookmarkResource (mkReq (mkUserDoc alice nobody) {[ "resourceId" := "" ]}) world0
  = (mkRes 400 (JMessage "Resource ID is required"), world0)
  ∧ unbookmarkResource (mkReq (mkUserDoc alice nobody) ∅) world0
    = (mkRes 400 (JMessage "Resource ID is required"), world0).
Proof.
  split.
  - apply (bookmark_requires_resourceId
             (mkReq (mkUserDoc alice nobody) {[ "resourceId" := "" ]}) world0).
    right. apply lookup_singleton_eq.
  - apply (bookmark_requires_resourceId (mkReq (mkUserDoc alice nobody) ∅) world0).
    left. apply lookup_empty.
Defined.

(** ** Bookmarks *)

Lemma occurrences_absent (x : ObjectId) (l : list ObjectId) :
  x ∉ l → occurrences x l = 0%nat.
Proof.
  intros Hx. unfold occurrences. induction l as [|y l IH]; [done|].
  apply not_elem_of_cons in Hx as [Hxy Hl].
  rewrite filter_cons_False by congruence. by apply IH.
Qed.

Lemma occurrences_present (x : ObjectId) (l : list ObjectId) :
  x ∈ l → (1 ≤ occurrences x l)%nat.
Proof.
  unfold occurrences. induction l as [|y l IH]; [by intros ?%elem_of_nil|].
  intros [->|Hx]%elem_of_cons.
  - rewrite filter_cons_True by done. cbn. lia.
  - destruct (decide (y = x)) as [->|Hyx].
    + rewrite filter_cons_True by done. cbn. lia.
    + rewrite filter_cons_False by done. by apply IH.
Qed.

Lemma occurrences_snoc (x : ObjectId) (l : list ObjectId) :
  occurrences x (l ++ [x]) = S (occurrences x l).
Proof.
  unfold occurrences. rewrite filter_app, length_app, filter_cons_True by done.
  cbn. lia.
Qed.

Lemma occurrences_addToSet (x : ObjectId) (l : list ObjectId) :
  (occurrences x l ≤ 1)%nat → occurrences x (addToSet x l) = 1%nat.
Proof.
  intros Hle. unfold addToSet. case_bool_decide as Hx.
  - apply occurrences_present in Hx. lia.
  - by rewrite occurrences_snoc, occurrences_absent.
Qed.

(** C8. bookmarkResource(alice, R) twice, with the id R written in upper
    case in the body: both calls are answered 200, and the second stores R
    a second time.  The membership test of line 74 compares the string of
    the body with the printed ids; the push of line 75 casts it. *)
Lemma bookmark_twice_duplicates :
  ObjectId.cast r1Upper = Some r1'
  ∧ ∃ w1 w2,
      bookmark alice r1Upper world0 = Some (mkRes 200 (JIds [r1']), w1)
      ∧ bookmark alice r1Upper w1 = Some (mkRes 200 (JIds [r1'; r1']), w2)
      ∧ users w2 !! alice = Some (mkUser [] [] [r1'; r1'])
      ∧ occurrences r1' (bookmarkedResources (mkUser [] [] [r1'; r1'])) = 2.
Proof.
  split; [reflexivity|]. eexists _, _.
  split; [vm_compute; reflexivity|]. split; [vm_compute; reflexivity|].
  split; by vm_compute.
Qed.

(** X27. For an existing user U, a store without faults and a resource id R
    sent in its printed form.  When R occurs at most once in U's bookmarks,
    bookmarkResource(U,R) twice is answered 200 twice and leaves exactly
    one occurrence of R in bookmarkedResources(U), the list the second
    call returns.  When R is not bookmarked, unbookmarkResource(U,R) is
    answered 200 with U's list as it was, and the users collection is
    unchanged. *)
Theorem bookmark_twice_unbookmark_absent u r uu w :
  ObjectId.canonical r → faults w = [] → users w !! u = Some uu →
  ((occurrences r (bookmarkedResources uu) ≤ 1)%nat →
   ∃ r1 w1 w2 l,
     bookmark u r w = Some (r1, w1) ∧ status r1 = 200
     ∧ bookmark u r w1 = Some (mkRes 200 (JIds l), w2)
     ∧ users w2 !! u = Some (setBookmarkedResources l uu)
     ∧ occurrences r l = 1)
  ∧ (r ∉ bookmarkedResources uu →
     ∃ w', unbookmark u r w
           = Some (mkRes 200 (JIds (bookmarkedResources uu)), w')
       ∧ users w' = users w).
Proof.
  intros Hr HF Hu. split.
  - intros Hocc.
    destruct (bookmark_outcome u r uu w Hr Hu) as (r1 & w1 & Hrun1 & Hcase1 & Hok1).
    destruct (Hok1 HF) as [H1 HF1].
    destruct Hcase1 as [?|[-> Hus1]]; [done|].
    set (l := addToSet r (bookmarkedResources uu)) in *.
    assert (Hu1 : users w1 !! u = Some (setBookmarkedResources l uu))
      by (by rewrite Hus1, lookup_insert_eq).
    destruct (bookmark_outcome u r _ w1 Hr Hu1) as (r2 & w2 & Hrun2 & Hcase2 & Hok2).
    destruct (Hok2 HF1) as [H2 _].
    destruct Hcase2 as [?|[-> Hus2]]; [done|].
    cbn [setBookmarkedResources bookmarkedResources] in Hrun2, Hus2.
    unfold l in Hrun2, Hus2. rewrite addToSet_idem in Hrun2, Hus2. fold l in Hrun2, Hus2.
    eexists _, w1, w2, l. split; [exact Hrun1|]. split; [done|].
    split; [exact Hrun2|]. split; [by rewrite Hus2, lookup_insert_eq|].
    by apply occurrences_addToSet.
  - intros Habs.
    assert (Hne : r ≠ "") by (by eapply cast_nonempty).
    destruct (unbookmark_outcome u r uu w Hne Hu) as (r1 & w1 & Hrun1 & Hcase1 & Hok1).
    destruct (Hok1 HF) as [H1 _].
    destruct Hcase1 as [?|[-> Hus1]]; [done|].
    rewrite (without_absent r) in Hrun1, Hus1 by done.
    exists w1. split; [done|]. rewrite Hus1. apply insert_id.
    by rewrite Hu; destruct uu.
Qed.

Lemma bookmark_twice_unbookmark_absent_witness :
  (∃ r1 w1 w2 l,
     bookmark alice r1' world0 = Some (r1, w1) ∧ status r1 = 200
     ∧ bookmark alice r1' w1 = Some (mkRes 200 (JIds l), w2)
     ∧ users w2 !! alice = Some (setBookmarkedResources l nobody)
     ∧ occurrences r1' l = 1)
  ∧ (∃ w', unbookmark alice r1' world0 = Some (mkRes 200 (JIds []), w')
       ∧ users w' = users world0).
Proof.
  destruct (bookmark_twice_unbookmark_absent alice r1' nobody world0)
    as [Hadd Hremove]; [reflexivity | reflexivity | by vm_compute |].
  split.
  - apply Hadd. cbn. lia.
  - apply Hremove, not_elem_of_nil.
Defined.

(** ** Retry after a partial follow *)

(** A store fault on the second save leaves the follow applied on A's side
    only, under a 500 answer: the partially applied state of section 4.3. *)
Example follow_partial_on_fault :
  (λ rw, (fst rw, users (snd rw) !! alice, users (snd rw) !! bob))
    <$> follow alice bob (mkWorld (users world0) [false; false; true] [])
  = Some (mkRes 500 (JMessage "Server error while following user"),
          Some (mkUser [bob] [] []), Some nobody).
Proof. by vm_compute. Qed.

(** C9. followUser(alice, dave) re-invoked on the partially applied state
    (dave in followedUsers(alice), alice not in followers(dave)), with
    dave's id written in upper case in the body: the call is answered 200,
    alice is added to followers(dave), and dave is appended to
    followedUsers(alice) a second time. *)
Lemma follow_retry_duplicates :
  ObjectId.cast daveUpper = Some dave
  ∧ users worldDavePartial !! alice = Some (mkUser [dave] [] [])
  ∧ users worldDavePartial !! dave = Some nobody
  ∧ ∃ w',
      follow alice daveUpper worldDavePartial
      = Some (mkRes 200 (JFollow [dave; dave] [alice]), w')
      ∧ users w' !! alice = Some (mkUser [dave; dave] [] [])
      ∧ users w' !! dave = Some (mkUser [] [alice] [])
      ∧ occurrences dave (followedUsers (mkUser [dave; dave] [] [])) = 2.
Proof.
  split; [reflexivity|]. split; [by vm_compute|]. split; [by vm_compute|].
  eexists. split; [vm_compute; reflexivity|].
  split; [by vm_compute|]. split; by vm_compute.
Qed.

(** X28. For distinct existing users A and B, with B's id sent in its
    printed form, and a store without faults, starting from a state where
    followedUsers(A) holds B exactly once and followers(B) does not hold A:
    followUser(A,B) is answered 200, A's record is the one it was
    (followedUsers(A) still holds B exactly once) and followers(B) is the
    old list with A appended, where A occurs once. *)
Theorem follow_retry_converges a b ua ub w :
  a ≠ b → ObjectId.canonical b → faults w = [] →
  users w !! a = Some ua → users w !! b = Some ub →
  occurrences b (followedUsers ua) = 1 → a ∉ followers ub →
  ∃ w' ua' ub',
    follow a b w
    = Some (mkRes 200 (JFollow (followedUsers ua') (followers ub')), w')
    ∧ users w' !! a = Some ua' ∧ users w' !! b = Some ub'
    ∧ ua' = ua ∧ occurrences b (followedUsers ua') = 1
    ∧ followers ub' = followers ub ++ [a]
    ∧ occurrences a (followers ub') = 1.
Proof.
  intros Hab Hb HF Ha Hub Hocc Hfb.
  assert (Hfa : b ∈ followedUsers ua).
  { destruct (decide (b ∈ followedUsers ua)) as [|Hn]; [done|].
    apply occurrences_absent in Hn. lia. }
  destruct (follow_ok a b ua ub w Hab Hb HF Ha Hub) as (w' & Hrun & Hus & _).
  unfold addToSet in Hrun.
  rewrite bool_decide_true, bool_decide_false in Hrun by done.
  exists w', ua, (setFollowers (followers ub ++ [a]) ub).
  split; [exact Hrun|].
  rewrite Hus, specFollow_lookup_actor, specFollow_lookup_target by done.
  unfold addToSet. rewrite bool_decide_true, bool_decide_false by done.
  split; [by destruct ua|]. split; [done|]. split; [done|]. split; [done|].
  split; [done|]. cbn [setFollowers followers].
  by rewrite occurrences_snoc, occurrences_absent.
Qed.

Lemma follow_retry_converges_witness :
  ∃ w' ua' ub',
    follow alice bob worldPartial
    = Some (mkRes 200 (JFollow (followedUsers ua') (followers ub')), w')
    ∧ users w' !! alice = Some ua' ∧ users w' !! bob = Some ub'
    ∧ ua' = mkUser [bob] [] [] ∧ occurrences bob (followedUsers ua') = 1
    ∧ followers ub' = [alice]
    ∧ occurrences alice (followers ub') = 1.
Proof.
  apply (follow_retry_converges alice bob (mkUser [bob] [] []) nobody worldPartial).
  - discriminate.
  - reflexivity.
  - reflexivity.
  - by vm_compute.
  - by vm_compute.
  - by vm_compute.
  - apply not_elem_of_nil.
Defined.

(** ** What no handler does to the users collection *)

Lemma keeps_ret {A} R `{!Reflexive R} (a : A) : keeps R (mret a : M A).
Proof. intros w. cbn. reflexivity. Qed.

Lemma keeps_throw {A} R `{!Reflexive R} e : keeps R (throw e : M A).
Proof. intros w. cbn. reflexivity. Qed.

Lemma keeps_respond R `{!Reflexive R} code msg : keeps R (respond code msg).
Proof. intros w. cbn. reflexivity. Qed.

Lemma keeps_bind {A B} R `{!Transitive R} (m : M A) (k : A → M B) :
  keeps R m → (∀ a, keeps R (k a)) → keeps R (m ≫= k).
Proof.
  intros Hm Hk w. unfold mbind, M_bind, bind.
  specialize (Hm w). destruct (m w) as [[e|a] w1]; [done|].
  cbn [snd] in Hm. etrans; [exact Hm|]. apply Hk.
Qed.

Lemma keeps_tryCatch R (block : M Response) msg :
  keeps R block → keeps R (tryCatch block msg).
Proof.
  intros Hb w. specialize (Hb w). unfold tryCatch.
  by destruct (block w) as [[e|r] w1].
Qed.

Lemma keeps_roundTrip R `{!Reflexive R} op : keeps R (roundTrip op).
Proof. intros w. unfold roundTrip. destruct (faults w) as [|[] ?]; cbn; reflexivity. Qed.

Lemma keeps_findByKey R `{!Reflexive R} k : keeps R (findByKey k).
Proof.
  intros w. rewrite findByKey_run. destruct (faulty w); cbn; reflexivity.
Qed.

Lemma keeps_findById R `{!Reflexive R} s : keeps R (findById s).
Proof.
  unfold findById. destruct (ObjectId.cast s); [by apply keeps_findByKey|].
  by apply keeps_throw.
Qed.

Lemma keeps_push R `{!Reflexive R} l s : keeps R (push l s).
Proof.
  unfold push. destruct (ObjectId.cast s); [by apply keeps_ret|].
  by apply keeps_throw.
Qed.

Lemma keeps_save R `{!Reflexive R} d p :
  (∀ us u, us !! _id d = Some u →
     R us (<[_id d := writePath p (fields d) u]> us)) →
  keeps R (save d p).
Proof.
  intros Hw w. rewrite save_run. destruct (faulty w); [cbn; reflexivity|].
  destruct (users w !! _id d) as [u|] eqn:Hu; cbn; [by apply Hw | reflexivity].
Qed.

Global Instance sameIds_refl : Reflexive sameIds.
Proof. by intros us. Qed.

Global Instance sameIds_trans : Transitive sameIds.
Proof. unfold sameIds. intros us1 us2 us3 H12 H23. congruence. Qed.

Lemma sameIds_write us k (u u' : User) :
  us !! k = Some u → sameIds us (<[k := u']> us).
Proof. intros Hk. unfold sameIds. by apply dom_insert_lookup_L. Qed.

Global Instance onlyBookmarksOf_refl u : Reflexive (onlyBookmarksOf u).
Proof. by intros us k. Qed.

Global Instance onlyBookmarksOf_trans u : Transitive (onlyBookmarksOf u).
Proof.
  intros us1 us2 us3 H12 H23 k.
  destruct (H12 k) as (Ha & Hb & Hc), (H23 k) as (Ha' & Hb' & Hc').
  split; [congruence|]. split; [congruence|]. intros Hk.
  by rewrite Hc', Hc.
Qed.

Global Instance onlyFollowOf_refl a t : Reflexive (onlyFollowOf a t).
Proof. by intros us k. Qed.

Global Instance onlyFollowOf_trans a t : Transitive (onlyFollowOf a t).
Proof.
  intros us1 us2 us3 H12 H23 k.
  destruct (H12 k) as (Ha & Hb & Hc), (H23 k) as (Ha' & Hb' & Hc').
  split; [congruence|]. split; intros Hk; [by rewrite Hb', Hb | by rewrite Hc', Hc].
Qed.

Ltac keeps_handler :=
  repeat first
    [ apply keeps_respond; apply _
    | apply keeps_tryCatch
    | apply keeps_findByKey; apply _
    | apply keeps_findById; apply _
    | apply keeps_push; apply _
    | apply keeps_save; [apply _ | ]
    | apply keeps_ret; apply _
    | apply keeps_throw; apply _
    | apply keeps_bind; [apply _ | | intros ?]
    | case_match ].

Lemma handlers_keep_sameIds req :
  keeps sameIds (bookmarkResource req)
  ∧ keeps sameIds (unbookmarkResource req)
  ∧ keeps sameIds (followUser req)
  ∧ keeps sameIds (unfollowUser req).
Proof.
  unfold bookmarkResource, unbookmarkResource, followUser, unfollowUser.
  repeat split; keeps_handler; intros ? ? ?; by eapply sameIds_write.
Qed.

(** X1. Whatever the request and whatever the store does, none of the four
    handlers adds a User record or removes one: the ids of the users
    collection are the same before and after. *)
Theorem handlers_keep_user_ids req w :
  dom (users (snd (bookmarkResource req w))) = dom (users w)
  ∧ dom (users (snd (unbookmarkResource req w))) = dom (users w)
  ∧ dom (users (snd (followUser req w))) = dom (users w)
  ∧ dom (users (snd (unfollowUser req w))) = dom (users w).
Proof.
  destruct (handlers_keep_sameIds req) as (H1 & H2 & H3 & H4).
  split; [apply H1|]. split; [apply H2|]. split; [apply H3|apply H4].
Qed.

Lemma keeps_bind_returns {A B} R `{!Transitive R} (Q : A → Prop)
    (m : M A) (k : A → M B) :
  keeps R m → returns Q m → (∀ a, Q a → keeps R (k a)) → keeps R (m ≫= k).
Proof.
  intros Hm HQ Hk w. unfold mbind, M_bind, bind.
  specialize (Hm w). specialize (HQ w).
  destruct (m w) as [[e|a] w1]; [done|].
  cbn [fst snd] in *. etrans; [exact Hm|]. apply Hk. by apply HQ.
Qed.

Lemma findByKey_returns k :
  returns (λ found, ∀ d, found = Some d → _id d = k) (findByKey k).
Proof.
  intros w found. rewrite findByKey_run.
  destruct (faulty w); cbn; [done|]. intros [= <-] d.
  by destruct (users w !! k); intros [= <-].
Qed.

Lemma findById_returns s :
  returns (λ found, ∀ d, found = Some d → ObjectId.cast s = Some (_id d))
          (findById s).
Proof.
  intros w found. unfold findById.
  destruct (ObjectId.cast s) as [k|]; [|done].
  intros Hrun d ->. f_equal. symmetry.
  by eapply (findByKey_returns k w).
Qed.

Lemma onlyBookmarksOf_write us k u l :
  us !! k = Some u →
  onlyBookmarksOf k us
    (<[k := mkUser (followedUsers u) (followers u) l]> us).
Proof.
  intros Hk j. destruct (decide (j = k)) as [->|Hjk].
  - rewrite lookup_insert_eq, Hk. done.
  - by rewrite lookup_insert_ne.
Qed.

Lemma onlyFollowOf_write_followedUsers a t us u l :
  us !! a = Some u →
  onlyFollowOf a t us
    (<[a := mkUser l (followers u) (bookmarkedResources u)]> us).
Proof.
  intros Hk j. destruct (decide (j = a)) as [->|Hjk].
  - rewrite lookup_insert_eq, Hk. done.
  - by rewrite lookup_insert_ne.
Qed.

Lemma onlyFollowOf_write_followers a t us u l :
  us !! t = Some u →
  onlyFollowOf a (Some t) us
    (<[t := mkUser (followedUsers u) l (bookmarkedResources u)]> us).
Proof.
  intros Hk j. destruct (decide (j = t)) as [->|Hjk].
  - rewrite lookup_insert_eq, Hk. done.
  - by rewrite lookup_insert_ne.
Qed.

Lemma bookmark_handlers_frame req :
  keeps (onlyBookmarksOf (_id (user req))) (bookmarkResource req)
  ∧ keeps (onlyBookmarksOf (_id (user req))) (unbookmarkResource req).
Proof.
  unfold bookmarkResource, unbookmarkResource.
  split; (case_match; [|apply keeps_respond; apply _]);
    apply keeps_tryCatch;
    (eapply keeps_bind_returns;
       [apply _ | apply keeps_findByKey; apply _ | apply findByKey_returns |]);
    intros [d|] Hd; [|apply keeps_ret; apply _| |apply keeps_ret; apply _];
    specialize (Hd d eq_refl); keeps_handler;
    intros us u Hu; cbn [_id withBookmarkedResources fields writePath] in *;
    rewrite Hd in *; by apply onlyBookmarksOf_write.
Qed.

Lemma follow_handlers_frame req :
  keeps (onlyFollowOf (_id (user req)) (targetOf "userIdToFollow" req))
        (followUser req)
  ∧ keeps (onlyFollowOf (_id (user req)) (targetOf "userIdToUnfollow" req))
          (unfollowUser req).
Proof.
  unfold followUser, unfollowUser, targetOf.
  split; (case_match; [|apply keeps_respond; apply _]);
    (case_match; [apply keeps_respond; apply _|]);
    apply keeps_tryCatch;
    (eapply keeps_bind_returns;
       [apply _ | apply keeps_findById; apply _ | apply findById_returns |]);
    intros [d|] Hd; [|apply keeps_ret; apply _| |apply keeps_ret; apply _];
    specialize (Hd d eq_refl); cbn [mbind option_bind]; rewrite Hd;
    keeps_handler;
    intros us u Hu;
    cbn [_id withFollowedUsers withFollowers fields writePath] in *;
    first [by apply onlyFollowOf_write_followedUsers
          |by apply onlyFollowOf_write_followers].
Qed.

(** X2. bookmarkResource and unbookmarkResource, whatever the request and
    whatever the store does, leave every followedUsers and followers list
    as it was and leave every record but the caller's untouched. *)
Theorem bookmark_handlers_touch_only_bookmarks req w k :
  (followedUsers <$> users (snd (bookmarkResource req w)) !! k
     = followedUsers <$> users w !! k
   ∧ followers <$> users (snd (bookmarkResource req w)) !! k
     = followers <$> users w !! k
   ∧ (k ≠ _id (user req) →
      users (snd (bookmarkResource req w)) !! k = users w !! k))
  ∧ (followedUsers <$> users (snd (unbookmarkResource req w)) !! k
       = followedUsers <$> users w !! k
     ∧ followers <$> users (snd (unbookmarkResource req w)) !! k
       = followers <$> users w !! k
     ∧ (k ≠ _id (user req) →
        users (snd (unbookmarkResource req w)) !! k = users w !! k)).
Proof.
  destruct (bookmark_handlers_frame req) as [Hb Hu].
  split; [apply (Hb w k) | apply (Hu w k)].
Qed.

Lemma onlyBookmarksOf_consistent u us us' :
  onlyBookmarksOf u us us' → followConsistent us → followConsistent us'.
Proof.
  intros Hframe Hinv a b ua' ub' Ha Hb.
  destruct (Hframe a) as (Hfa & _ & _), (Hframe b) as (_ & Hfb & _).
  rewrite Ha in Hfa. rewrite Hb in Hfb.
  destruct (us !! a) as [ua|] eqn:Ha0; [|done].
  destruct (us !! b) as [ub|] eqn:Hb0; [|done].
  cbn in Hfa, Hfb. simplify_eq. rewrite Hfa, Hfb. by apply Hinv.
Qed.

(** X3. bookmarkResource and unbookmarkResource keep the follow relation
    mirrored: when "A is in followers(B) exactly if B is in
    followedUsers(A)" holds of every pair of records, it still does after
    either handler, whatever the request and whatever the store does. *)
Theorem bookmark_handlers_keep_follow_relation req w :
  followConsistent (users w) →
  followConsistent (users (snd (bookmarkResource req w)))
  ∧ followConsistent (users (snd (unbookmarkResource req w))).
Proof.
  intros Hinv. destruct (bookmark_handlers_frame req) as [Hb Hu].
  split; eapply onlyBookmarksOf_consistent; [apply Hb|done|apply Hu|done].
Qed.

Lemma bookmark_handlers_keep_follow_relation_witness :
  followConsistent
    (users (snd (bookmarkResource
                   (mkReq (mkUserDoc alice nobody) {[ "resourceId" := r1' ]})
                   world0)))
  ∧ followConsistent
      (users (snd (unbookmarkResource
                     (mkReq (mkUserDoc alice nobody) {[ "resourceId" := r1' ]})
                     world0))).
Proof.
  apply (bookmark_handlers_keep_follow_relation
           (mkReq (mkUserDoc alice nobody) {[ "resourceId" := r1' ]}) world0).
  exact followConsistent_world0.
Defined.

(** X4. followUser and unfollowUser, whatever the request and whatever the
    store does, leave every bookmarkedResources list as it was, change
    followedUsers of no record but the caller's, and change followers of
    no record but the one the id in the body casts to. *)
Theorem follow_handlers_touch_only_follow_lists req w k :
  (bookmarkedResources <$> users (snd (followUser req w)) !! k
     = bookmarkedResources <$> users w !! k
   ∧ (k ≠ _id (user req) →
      followedUsers <$> users (snd (followUser req w)) !! k
      = followedUsers <$> users w !! k)
   ∧ (Some k ≠ targetOf "userIdToFollow" req →
      followers <$> users (snd (followUser req w)) !! k
      = followers <$> users w !! k))
  ∧ (bookmarkedResources <$> users (snd (unfollowUser req w)) !! k
       = bookmarkedResources <$> users w !! k
     ∧ (k ≠ _id (user req) →
        followedUsers <$> users (snd (unfollowUser req w)) !! k
        = followedUsers <$> users w !! k)
     ∧ (Some k ≠ targetOf "userIdToUnfollow" req →
        followers <$> users (snd (unfollowUser req w)) !! k
        = followers <$> users w !! k)).
Proof.
  destruct (follow_handlers_frame req) as [Hf Hu].
  split; [apply (Hf w k) | apply (Hu w k)].
Qed.

(** ** The guards of followUser and unfollowUser *)

(** X5. followUser and unfollowUser on a body whose id field is missing or
    empty answer 400 ("User ID to follow is required", "User ID to unfollow
    is required"); in each case the world is returned as it was, with no
    round trip to the store. *)
Theorem follow_guards req w :
  (body req !! "userIdToFollow" = None
   ∨ body req !! "userIdToFollow" = Some "" →
   followUser req w
   = (mkRes 400 (JMessage "User ID to follow is required"), w))
  ∧ (body req !! "userIdToUnfollow" = None
     ∨ body req !! "userIdToUnfollow" = Some "" →
     unfollowUser req w
     = (mkRes 400 (JMessage "User ID to unfollow is required"), w)).
Proof.
  split.
  - intros Habsent%truthy_absent. unfold followUser. by rewrite Habsent.
  - intros Habsent%truthy_absent. unfold unfollowUser. by rewrite Habsent.
Qed.

(** X6. For an existing user A and a target string that is a well-formed
    id resolving to no User record, when the store answers the lookup,
    unfollowUser answers 404 "User to unfollow not found" after that one
    lookup and writes nothing. *)
Theorem unfollowUser_target_missing a t k ua w :
  ObjectId.canonical a → users w !! a = Some ua →
  ObjectId.cast t = Some k → users w !! k = None → faulty w = false →
  ∃ w', unfollow a t w
        = Some (mkRes 404 (JMessage "User to unfollow not found"), w')
    ∧ users w' = users w
    ∧ log w' = log w ++ [OpFindById k].
Proof.
  intros Hcan Ha Ht Hk HF.
  assert (Hta : t ≠ a).
  { intros ->. unfold ObjectId.canonical in Hcan. congruence. }
  exists (advance (OpFindById k) w). split; [|done].
  unfold unfollow, asUser. rewrite Ha.
  unfold unfollowUser. cbn [user body _id fields]. rewrite lookup_singleton_eq.
  rewrite (truthy_cast _ _ Ht), bool_decide_false by done.
  unfold tryCatch, findById. rewrite Ht.
  unfold mbind at 1. unfold M_bind, bind.
  rewrite findByKey_run, HF. simpl_doc. by rewrite Hk.
Qed.

Lemma unfollowUser_target_missing_witness :
  ∃ w', unfollow alice carol world0
        = Some (mkRes 404 (JMessage "User to unfollow not found"), w')
    ∧ users w' = users world0
    ∧ log w' = [OpFindById carol].
Proof.
  apply (unfollowUser_target_missing alice carol carol nobody world0).
  - reflexivity.
  - by vm_compute.
  - reflexivity.
  - by vm_compute.
  - reflexivity.
Defined.

(** ** What unfollowUser leaves *)

Lemma without_idem x (l : list ObjectId) : without x (without x l) = without x l.
Proof. apply without_absent, not_elem_of_without. Qed.

Lemma without_sublist x (l : list ObjectId) : without x l `sublist_of` l.
Proof. unfold without. apply sublist_filter. Qed.

Lemma specUnfollow_idem a b ua ub us :
  a ≠ b →
  specUnfollow a b (setFollowedUsers (without b (followedUsers ua)) ua)
    (setFollowers (without a (followers ub)) ub) (specUnfollow a b ua ub us)
  = specUnfollow a b ua ub us.
Proof.
  intros Hab. unfold specUnfollow at 1.
  unfold setFollowedUsers at 1 2. unfold setFollowers at 1 2.
  cbn [followedUsers followers bookmarkedResources].
  rewrite !without_idem.
  rewrite (insert_id _ a).
  - rewrite insert_id; [done|]. apply specUnfollow_lookup_target.
  - by apply specUnfollow_lookup_actor.
Qed.

Lemma specUnfollow_absent a b ua ub us :
  a ≠ b → us !! a = Some ua → us !! b = Some ub →
  b ∉ followedUsers ua → a ∉ followers ub →
  specUnfollow a b ua ub us = us.
Proof.
  intros Hab Ha Hb Hfa Hfb. unfold specUnfollow, setFollowedUsers, setFollowers.
  rewrite !without_absent, !user_eta by done.
  rewrite (insert_id _ a) by done. by rewrite insert_id.
Qed.

(** X7. For distinct existing users A and B (B's id in its printed form)
    and a store without faults, unfollowUser(A,B) is answered 200 with the
    two lists it leaves: B is no longer in followedUsers(A) and A no longer
    in followers(B), every other id is in a list exactly if it was, and the
    ids that stay keep their order. *)
Theorem unfollowUser_removes_edge a b ua ub w :
  a ≠ b → ObjectId.canonical b → faults w = [] →
  users w !! a = Some ua → users w !! b = Some ub →
  ∃ w' ua' ub',
    unfollow a b w
    = Some (mkRes 200 (JFollow (followedUsers ua') (followers ub')), w')
    ∧ users w' !! a = Some ua' ∧ users w' !! b = Some ub'
    ∧ (b ∉ followedUsers ua') ∧ (a ∉ followers ub')
    ∧ (∀ c, c ≠ b → (c ∈ followedUsers ua' ↔ c ∈ followedUsers ua))
    ∧ (∀ c, c ≠ a → (c ∈ followers ub' ↔ c ∈ followers ub))
    ∧ followedUsers ua' `sublist_of` followedUsers ua
    ∧ followers ub' `sublist_of` followers ub.
Proof.
  intros Hab Hb HF Ha Hub.
  destruct (unfollow_ok a b ua ub w Hab Hb HF Ha Hub) as (w' & Hrun & Hus & _).
  exists w', (setFollowedUsers (without b (followedUsers ua)) ua),
    (setFollowers (without a (followers ub)) ub).
  split; [exact Hrun|].
  rewrite Hus, specUnfollow_lookup_actor, specUnfollow_lookup_target by done.
  cbn [setFollowedUsers setFollowers followedUsers followers].
  split; [done|]. split; [done|].
  split; [apply not_elem_of_without|]. split; [apply not_elem_of_without|].
  split; [intros c Hc; rewrite elem_of_without; tauto|].
  split; [intros c Hc; rewrite elem_of_without; tauto|].
  split; apply without_sublist.
Qed.

Lemma unfollowUser_removes_edge_witness :
  ∃ w' ua' ub',
    unfollow alice bob worldFollowing
    = Some (mkRes 200 (JFollow (followedUsers ua') (followers ub')), w')
    ∧ users w' !! alice = Some ua' ∧ users w' !! bob = Some ub'
    ∧ (bob ∉ followedUsers ua') ∧ (alice ∉ followers ub').
Proof.
  destruct (unfollowUser_removes_edge alice bob (mkUser [bob] [] [])
              (mkUser [] [alice] []) worldFollowing)
    as (w' & ua' & ub' & Hrun & Ha & Hb & Hna & Hnb & _).
  - discriminate.
  - reflexivity.
  - reflexivity.
  - by vm_compute.
  - by vm_compute.
  - exists w', ua', ub'.
    exact (conj Hrun (conj Ha (conj Hb (conj Hna Hnb)))).
Defined.

(** X8. For distinct existing users A and B (B's id in its printed form)
    and a store without faults: a second unfollowUser(A,B) is answered 200
    with the same lists as the first and leaves the users collection as
    the first left it; and when A does not follow B on either side, the
    first call already leaves the users collection as it was. *)
Theorem unfollowUser_idempotent a b ua ub w :
  a ≠ b → ObjectId.canonical b → faults w = [] →
  users w !! a = Some ua → users w !! b = Some ub →
  ∃ r1 w1 r2 w2,
    unfollow a b w = Some (r1, w1) ∧ unfollow a b w1 = Some (r2, w2)
    ∧ status r1 = 200 ∧ r2 = r1 ∧ users w2 = users w1
    ∧ (b ∉ followedUsers ua → a ∉ followers ub → users w1 = users w).
Proof.
  intros Hab Hb HF Ha Hub.
  destruct (unfollow_ok a b ua ub w Hab Hb HF Ha Hub) as (w1 & Hrun1 & Hus1 & HF1).
  assert (Ha1 : users w1 !! a
                = Some (setFollowedUsers (without b (followedUsers ua)) ua))
    by (rewrite Hus1; by apply specUnfollow_lookup_actor).
  assert (Hb1 : users w1 !! b = Some (setFollowers (without a (followers ub)) ub))
    by (rewrite Hus1; by apply specUnfollow_lookup_target).
  destruct (unfollow_ok a b _ _ w1 Hab Hb HF1 Ha1 Hb1) as (w2 & Hrun2 & Hus2 & _).
  cbn [setFollowedUsers setFollowers followedUsers followers] in Hrun2.
  rewrite !without_idem in Hrun2.
  rewrite Hus1, specUnfollow_idem in Hus2 by done.
  eexists _, w1, _, w2. split; [exact Hrun1|]. split; [exact Hrun2|].
  split; [done|]. split; [done|]. split; [by rewrite Hus2, Hus1|].
  intros Hfa Hfb. rewrite Hus1. by apply specUnfollow_absent.
Qed.

Lemma unfollowUser_idempotent_witness :
  ∃ r1 w1 r2 w2,
    unfollow alice bob world0 = Some (r1, w1)
    ∧ unfollow alice bob w1 = Some (r2, w2)
    ∧ status r1 = 200 ∧ r2 = r1 ∧ users w2 = users w1
    ∧ users w1 = users world0.
Proof.
  destruct (unfollowUser_idempotent alice bob nobody nobody world0)
    as (r1 & w1 & r2 & w2 & Hrun1 & Hrun2 & H200 & Hr & Hus & Hnoop);
    [discriminate | reflexivity | reflexivity | by vm_compute | by vm_compute |].
  exists r1, w1, r2, w2. split; [exact Hrun1|]. split; [exact Hrun2|].
  split; [exact H200|]. split; [exact Hr|]. split; [exact Hus|].
  apply Hnoop; apply not_elem_of_nil.
Defined.

(** ** Bookmarks: all or nothing, and undoing *)

Ltac refused :=
  intros [= <- <-]; left; split; [discriminate | reflexivity].

Lemma bookmarkResource_cases req w r w' :
  bookmarkResource req w = (r, w') →
  (status r ≠ 200 ∧ users w' = users w)
  ∨ (∃ s u, truthy (body req !! "resourceId") = Some s
       ∧ users w !! _id (user req) = Some u
       ∧ faulty w = false
       ∧ ∃ l, r = mkRes 200 (JIds l)
           ∧ ((s ∈ bookmarkedResources u) ∧ l = bookmarkedResources u
              ∧ users w' = users w
              ∨ (s ∉ bookmarkedResources u)
                ∧ ∃ k, ObjectId.cast s = Some k
                    ∧ l = bookmarkedResources u ++ [k]
                    ∧ users w'
                      = <[_id (user req) := setBookmarkedResources l u]>
                          (users w))).
Proof.
  unfold bookmarkResource.
  destruct (truthy (body req !! "resourceId")) as [s|] eqn:Hs; [|refused].
  unfold tryCatch. unfold mbind at 1. unfold M_bind, bind.
  rewrite findByKey_run.
  destruct (faulty w) eqn:F1; [refused|].
  simpl_doc.
  destruct (users w !! _id (user req)) as [u|] eqn:Hu;
    cbn [fmap option_fmap option_map]; [|refused].
  simpl_doc. unfold includes, push.
  destruct (bool_decide (s ∈ bookmarkedResources u)) eqn:E; cbn [negb].
  - apply bool_decide_eq_true in E. intros [= <- <-]. right. exists s, u.
    split; [done|]. split; [done|]. split; [done|].
    exists (bookmarkedResources u). split; [done|]. by left.
  - apply bool_decide_eq_false in E.
    destruct (ObjectId.cast s) as [k|] eqn:Hk; unfold_await; [|refused].
    rewrite save_run.
    match goal with |- context [faulty ?x] => destruct (faulty x) eqn:F2 end;
      [refused|].
    simpl_doc. rewrite Hu. intros [= <- <-]. right. exists s, u.
    split; [done|]. split; [done|]. split; [done|].
    exists (bookmarkedResources u ++ [k]). split; [done|]. right.
    split; [done|]. by exists k.
Qed.

Lemma unbookmarkResource_cases req w r w' :
  unbookmarkResource req w = (r, w') →
  (status r ≠ 200 ∧ users w' = users w)
  ∨ (∃ s u, truthy (body req !! "resourceId") = Some s
       ∧ users w !! _id (user req) = Some u
       ∧ faulty w = false
       ∧ r = mkRes 200 (JIds (without s (bookmarkedResources u)))
       ∧ users w'
         = <[_id (user req) :=
               setBookmarkedResources (without s (bookmarkedResources u)) u]>
             (users w)).
Proof.
  unfold unbookmarkResource.
  destruct (truthy (body req !! "resourceId")) as [s|] eqn:Hs; [|refused].
  unfold tryCatch. unfold mbind at 1. unfold M_bind, bind.
  rewrite findByKey_run.
  destruct (faulty w) eqn:F1; [refused|].
  simpl_doc.
  destruct (users w !! _id (user req)) as [u|] eqn:Hu;
    cbn [fmap option_fmap option_map]; [|refused].
  simpl_doc. unfold includes.
  destruct (bool_decide (s ∈ bookmarkedResources u)) eqn:E; unfold_await.
  - rewrite save_run.
    match goal with |- context [faulty ?x] => destruct (faulty x) eqn:F2 end;
      [refused|].
    simpl_doc. rewrite Hu. intros [= <- <-]. right. by exists s, u.
  - apply bool_decide_eq_false in E. intros [= <- <-]. right. exists s, u.
    rewrite (without_absent s) by done.
    split; [done|]. split; [done|]. split; [done|]. split; [done|].
    cbn [advance users]. unfold setBookmarkedResources.
    by rewrite user_eta, insert_id.
Qed.

(** X9. bookmarkResource and unbookmarkResource are all or nothing: when
    the answer is not a 200 (a 400, a 404 or a 500, whatever failed), no
    record of the users collection has changed. *)
Theorem bookmark_handlers_all_or_nothing req w :
  (status (fst (bookmarkResource req w)) ≠ 200 →
   users (snd (bookmarkResource req w)) = users w)
  ∧ (status (fst (unbookmarkResource req w)) ≠ 200 →
     users (snd (unbookmarkResource req w)) = users w).
Proof.
  split; intros Hne.
  - destruct (bookmarkResource req w) as [r w'] eqn:Hrun. cbn [fst snd] in *.
    destruct (bookmarkResource_cases req w r w' Hrun)
      as [[_ Hus]|(s & u & _ & _ & _ & l & -> & _)]; done.
  - destruct (unbookmarkResource req w) as [r w'] eqn:Hrun. cbn [fst snd] in *.
    destruct (unbookmarkResource_cases req w r w' Hrun)
      as [[_ Hus]|(s & u & _ & _ & _ & -> & _)]; done.
Qed.

Lemma bookmark_handlers_all_or_nothing_witness :
  users (snd (bookmarkResource (mkReq (mkUserDoc alice nobody) ∅) worldFailing))
  = users worldFailing
  ∧ users (snd (unbookmarkResource
                  (mkReq (mkUserDoc carol nobody) {[ "resourceId" := r1' ]})
                  worldFailing))
    = users worldFailing.
Proof.
  split.
  - apply (proj1 (bookmark_handlers_all_or_nothing
                    (mkReq (mkUserDoc alice nobody) ∅) worldFailing)).
    vm_compute. discriminate.
  - apply (proj2 (bookmark_handlers_all_or_nothing
                    (mkReq (mkUserDoc carol nobody) {[ "resourceId" := r1' ]})
                    worldFailing)).
    vm_compute. discriminate.
Defined.

(** X10. For an existing user U, a store without faults and a resource id
    R sent in its printed form: unbookmarkResource(U,R) is answered 200
    with the list it leaves in U's record; R does not occur in it any more
    (however often it occurred), every other id is in it exactly if it was
    bookmarked, and the ids that stay keep their order. *)
Theorem unbookmarkResource_removes_all u r uu w :
  ObjectId.canonical r → faults w = [] → users w !! u = Some uu →
  ∃ w' l,
    unbookmark u r w = Some (mkRes 200 (JIds l), w')
    ∧ users w' !! u = Some (setBookmarkedResources l uu)
    ∧ occurrences r l = 0
    ∧ (∀ c, c ≠ r → (c ∈ l ↔ c ∈ bookmarkedResources uu))
    ∧ l `sublist_of` bookmarkedResources uu.
Proof.
  intros Hcan HF Hu.
  assert (Hr : r ≠ "") by (by eapply cast_nonempty).
  destruct (unbookmark_outcome u r uu w Hr Hu) as (res & w' & Hrun & Hcase & Hok).
  destruct (Hok HF) as [H500 _].
  destruct Hcase as [?|[-> Hus]]; [done|].
  exists w', (without r (bookmarkedResources uu)).
  split; [exact Hrun|]. split; [by rewrite Hus, lookup_insert_eq|].
  split; [apply occurrences_absent, not_elem_of_without|].
  split; [intros c Hc; rewrite elem_of_without; tauto|].
  apply without_sublist.
Qed.

Lemma unbookmarkResource_removes_all_witness :
  ∃ w' l,
    unbookmark alice r1' worldBookmarked = Some (mkRes 200 (JIds l), w')
    ∧ users w' !! alice = Some (setBookmarkedResources l (mkUser [] [] [r1'; bob; r1']))
    ∧ occurrences r1' l = 0.
Proof.
  destruct (unbookmarkResource_removes_all alice r1'
              (mkUser [] [] [r1'; bob; r1']) worldBookmarked)
    as (w' & l & Hrun & Hu & Hocc & _).
  - reflexivity.
  - reflexivity.
  - by vm_compute.
  - exists w', l. exact (conj Hrun (conj Hu Hocc)).
Defined.

(** X11. For an existing user U, a store without faults and a resource id R
    in its printed form that U has not bookmarked: bookmarkResource(U,R)
    then unbookmarkResource(U,R) are both answered 200, the second with the
    list U had at first, and the users collection is as it was. *)
Theorem bookmark_unbookmark_roundtrip u r uu w :
  ObjectId.canonical r → faults w = [] → users w !! u = Some uu →
  r ∉ bookmarkedResources uu →
  ∃ w1 w2,
    bookmark u r w
    = Some (mkRes 200 (JIds (bookmarkedResources uu ++ [r])), w1)
    ∧ unbookmark u r w1
      = Some (mkRes 200 (JIds (bookmarkedResources uu)), w2)
    ∧ users w2 = users w.
Proof.
  intros Hr HF Hu Hfresh.
  destruct (bookmark_outcome u r uu w Hr Hu) as (r1 & w1 & Hrun1 & Hcase1 & Hok1).
  destruct (Hok1 HF) as [H1 HF1].
  destruct Hcase1 as [?|[-> Hus1]]; [done|].
  unfold addToSet in Hrun1, Hus1. rewrite bool_decide_false in Hrun1, Hus1 by done.
  assert (Hu1 : users w1 !! u
                = Some (setBookmarkedResources (bookmarkedResources uu ++ [r]) uu))
    by (by rewrite Hus1, lookup_insert_eq).
  assert (Hne : r ≠ "") by (by eapply cast_nonempty).
  destruct (unbookmark_outcome u r _ w1 Hne Hu1)
    as (r2 & w2 & Hrun2 & Hcase2 & Hok2).
  destruct (Hok2 HF1) as [H2 _].
  destruct Hcase2 as [?|[-> Hus2]]; [done|].
  cbn [setBookmarkedResources bookmarkedResources] in Hrun2, Hus2.
  rewrite without_app_fresh in Hrun2, Hus2 by done.
  exists w1, w2. split; [exact Hrun1|]. split; [exact Hrun2|].
  rewrite Hus2, Hus1, insert_insert_eq.
  unfold setBookmarkedResources. cbn [followedUsers followers].
  by rewrite user_eta, insert_id.
Qed.

Lemma bookmark_unbookmark_roundtrip_witness :
  ∃ w1 w2,
    bookmark alice r1' world0 = Some (mkRes 200 (JIds [r1']), w1)
    ∧ unbookmark alice r1' w1 = Some (mkRes 200 (JIds []), w2)
    ∧ users w2 = users world0.
Proof.
  apply (bookmark_unbookmark_roundtrip alice r1' nobody world0).
  - reflexivity.
  - reflexivity.
  - by vm_compute.
  - apply not_elem_of_nil.
Defined.

(** ** What a failed follow or unfollow leaves, and retrying it *)

Ltac leaves_state n :=
  intros [= <- <-];
  match n with
  | 0 => left
  | 1 => right; left
  | 2 => right; right
  end.

Lemma follow_states a b ua ub w r w' :
  a ≠ b → ObjectId.canonical b →
  users w !! a = Some ua → users w !! b = Some ub →
  follow a b w = Some (r, w') →
  users w' = users w
  ∨ users w' = <[a := setFollowedUsers (addToSet b (followedUsers ua)) ua]> (users w)
  ∨ users w' = specFollow a b ua ub (users w).
Proof.
  intros Hab Hb Ha Hub. unfold follow, asUser. rewrite Ha.
  unfold followUser. cbn [user body _id fields]. rewrite lookup_singleton_eq.
  rewrite (truthy_cast _ _ Hb), bool_decide_false by congruence.
  unfold tryCatch, findById. rewrite Hb.
  unfold mbind at 1. unfold M_bind, bind. rewrite findByKey_run.
  destruct (faulty w) eqn:F1; [by leaves_state 0|].
  simpl_doc. rewrite Hub. cbn [fmap option_fmap option_map]. simpl_doc.
  unfold includes, specFollow, setFollowers, setFollowedUsers, addToSet, push,
    pushId.
  rewrite Hb.
  destruct (bool_decide (b ∈ followedUsers ua)) eqn:E1; cbn [negb];
    destruct (bool_decide (a ∈ followers ub)) eqn:E2; cbn [negb]; unfold_await.
  - by leaves_state 0.
  - rewrite save_run.
    match goal with |- context [faulty ?x] => destruct (faulty x) eqn:F2 end;
      [by leaves_state 0|].
    simpl_doc. rewrite Hub. leaves_state 2. simpl_doc.
    by rewrite !user_eta, (insert_id _ a).
  - rewrite save_run.
    match goal with |- context [faulty ?x] => destruct (faulty x) eqn:F2 end;
      [by leaves_state 0|].
    simpl_doc. rewrite Ha. by leaves_state 1.
  - rewrite save_run.
    match goal with |- context [faulty ?x] => destruct (faulty x) eqn:F2 end;
      [by leaves_state 0|].
    simpl_doc. rewrite Ha. rewrite save_run.
    match goal with |- context [faulty ?x] => destruct (faulty x) eqn:F3 end;
      [by leaves_state 1|].
    simpl_doc. rewrite lookup_insert_ne by done. rewrite Hub.
    by leaves_state 2.
Qed.

Lemma unfollow_states a b ua ub w r w' :
  a ≠ b → ObjectId.canonical b →
  users w !! a = Some ua → users w !! b = Some ub →
  unfollow a b w = Some (r, w') →
  users w' = users w
  ∨ users w' = <[a := setFollowedUsers (without b (followedUsers ua)) ua]> (users w)
  ∨ users w' = specUnfollow a b ua ub (users w).
Proof.
  intros Hab Hb Ha Hub. unfold unfollow, asUser. rewrite Ha.
  unfold unfollowUser. cbn [user body _id fields]. rewrite lookup_singleton_eq.
  rewrite (truthy_cast _ _ Hb), bool_decide_false by congruence.
  unfold tryCatch, findById. rewrite Hb.
  unfold mbind at 1. unfold M_bind, bind. rewrite findByKey_run.
  destruct (faulty w) eqn:F1; [by leaves_state 0|].
  simpl_doc. rewrite Hub. cbn [fmap option_fmap option_map]. simpl_doc.
  unfold includes, specUnfollow, setFollowers, setFollowedUsers.
  destruct (bool_decide (b ∈ followedUsers ua)) eqn:E1;
    destruct (bool_decide (a ∈ followers ub)) eqn:E2; unfold_await;
    try apply bool_decide_eq_false in E1; try apply bool_decide_eq_false in E2.
  - rewrite save_run.
    match goal with |- context [faulty ?x] => destruct (faulty x) eqn:F2 end;
      [by leaves_state 0|].
    simpl_doc. rewrite Ha. rewrite save_run.
    match goal with |- context [faulty ?x] => destruct (faulty x) eqn:F3 end;
      [by leaves_state 1|].
    simpl_doc. rewrite lookup_insert_ne by done. rewrite Hub.
    by leaves_state 2.
  - rewrite save_run.
    match goal with |- context [faulty ?x] => destruct (faulty x) eqn:F2 end;
      [by leaves_state 0|].
    simpl_doc. rewrite Ha. by leaves_state 1.
  - rewrite save_run.
    match goal with |- context [faulty ?x] => destruct (faulty x) eqn:F2 end;
      [by leaves_state 0|].
    simpl_doc. rewrite Hub. leaves_state 2. simpl_doc.
    rewrite (without_absent b) by done.
    by rewrite !user_eta, (insert_id _ a).
  - by leaves_state 0.
Qed.

Lemma specFollow_after_first_side a b ua ub us :
  a ≠ b →
  specFollow a b (setFollowedUsers (addToSet b (followedUsers ua)) ua) ub
    (<[a := setFollowedUsers (addToSet b (followedUsers ua)) ua]> us)
  = specFollow a b ua ub us.
Proof.
  intros Hab. unfold specFollow. unfold setFollowedUsers at 1 2.
  cbn [followedUsers followers bookmarkedResources].
  by rewrite addToSet_idem, insert_insert_eq.
Qed.

Lemma specUnfollow_after_first_side a b ua ub us :
  a ≠ b →
  specUnfollow a b (setFollowedUsers (without b (followedUsers ua)) ua) ub
    (<[a := setFollowedUsers (without b (followedUsers ua)) ua]> us)
  = specUnfollow a b ua ub us.
Proof.
  intros Hab. unfold specUnfollow. unfold setFollowedUsers at 1 2.
  cbn [followedUsers followers bookmarkedResources].
  by rewrite without_idem, insert_insert_eq.
Qed.

(** X12. For distinct existing users A and B (B's id in its printed form):
    whatever store faults interrupt followUser(A,B), and whatever it
    answers, one further followUser(A,B) against a store that no longer
    fails is answered 200 and leaves the users collection exactly as an
    undisturbed followUser(A,B) from the starting state would have left
    it.  The same holds of unfollowUser(A,B). *)
Theorem follow_retry_after_any_failure a b ua ub w :
  a ≠ b → ObjectId.canonical b →
  users w !! a = Some ua → users w !! b = Some ub →
  (∃ r1 w1 w2,
     follow a b w = Some (r1, w1)
     ∧ follow a b (recovered w1)
       = Some (mkRes 200 (JFollow (addToSet b (followedUsers ua))
                                  (addToSet a (followers ub))), w2)
     ∧ users w2 = specFollow a b ua ub (users w))
  ∧ (∃ r1 w1 w2,
       unfollow a b w = Some (r1, w1)
       ∧ unfollow a b (recovered w1)
         = Some (mkRes 200 (JFollow (without b (followedUsers ua))
                                    (without a (followers ub))), w2)
       ∧ users w2 = specUnfollow a b ua ub (users w)).
Proof.
  intros Hab Hb Ha Hub. split.
  - destruct (follow_outcome a b ua w Hab Hb Ha) as (r1 & w1 & Hrun1 & _).
    exists r1, w1.
    destruct (follow_states a b ua ub w r1 w1 Hab Hb Ha Hub Hrun1)
      as [Hus|[Hus|Hus]].
    + destruct (follow_ok a b ua ub (recovered w1) Hab Hb eq_refl)
        as (w2 & Hrun2 & Hus2 & _); [by cbn; rewrite Hus..|].
      exists w2. split; [done|]. split; [done|]. cbn in Hus2. by rewrite Hus2, Hus.
    + destruct (follow_ok a b (setFollowedUsers (addToSet b (followedUsers ua)) ua)
                  ub (recovered w1) Hab Hb eq_refl)
        as (w2 & Hrun2 & Hus2 & _).
      { cbn. by rewrite Hus, lookup_insert_eq. }
      { cbn. by rewrite Hus, lookup_insert_ne. }
      cbn [setFollowedUsers followedUsers] in Hrun2.
      rewrite addToSet_idem in Hrun2.
      exists w2. split; [done|]. split; [done|].
      cbn [recovered users] in Hus2.
      by rewrite Hus2, Hus, specFollow_after_first_side.
    + destruct (follow_ok a b (setFollowedUsers (addToSet b (followedUsers ua)) ua)
                  (setFollowers (addToSet a (followers ub)) ub)
                  (recovered w1) Hab Hb eq_refl)
        as (w2 & Hrun2 & Hus2 & _).
      { cbn. rewrite Hus. by apply specFollow_lookup_actor. }
      { cbn. rewrite Hus. by apply specFollow_lookup_target. }
      cbn [setFollowedUsers setFollowers followedUsers followers] in Hrun2.
      rewrite !addToSet_idem in Hrun2.
      exists w2. split; [done|]. split; [done|].
      cbn [recovered users] in Hus2.
      by rewrite Hus2, Hus, specFollow_idem.
  - destruct (unfollow_outcome a b ua w Hab Hb Ha) as (r1 & w1 & Hrun1 & _).
    exists r1, w1.
    destruct (unfollow_states a b ua ub w r1 w1 Hab Hb Ha Hub Hrun1)
      as [Hus|[Hus|Hus]].
    + destruct (unfollow_ok a b ua ub (recovered w1) Hab Hb eq_refl)
        as (w2 & Hrun2 & Hus2 & _); [by cbn; rewrite Hus..|].
      exists w2. split; [done|]. split; [done|]. cbn in Hus2. by rewrite Hus2, Hus.
    + destruct (unfollow_ok a b (setFollowedUsers (without b (followedUsers ua)) ua)
                  ub (recovered w1) Hab Hb eq_refl)
        as (w2 & Hrun2 & Hus2 & _).
      { cbn. by rewrite Hus, lookup_insert_eq. }
      { cbn. by rewrite Hus, lookup_insert_ne. }
      cbn [setFollowedUsers followedUsers] in Hrun2.
      rewrite without_idem in Hrun2.
      exists w2. split; [done|]. split; [done|].
      cbn [recovered users] in Hus2.
      by rewrite Hus2, Hus, specUnfollow_after_first_side.
    + destruct (unfollow_ok a b (setFollowedUsers (without b (followedUsers ua)) ua)
                  (setFollowers (without a (followers ub)) ub)
                  (recovered w1) Hab Hb eq_refl)
        as (w2 & Hrun2 & Hus2 & _).
      { cbn. rewrite Hus. by apply specUnfollow_lookup_actor. }
      { cbn. rewrite Hus. by apply specUnfollow_lookup_target. }
      cbn [setFollowedUsers setFollowers followedUsers followers] in Hrun2.
      rewrite !without_idem in Hrun2.
      exists w2. split; [done|]. split; [done|].
      cbn [recovered users] in Hus2.
      by rewrite Hus2, Hus, specUnfollow_idem.
Qed.

Lemma follow_retry_after_any_failure_witness :
  ∃ r1 w1 w2,
    follow alice bob worldFailing = Some (r1, w1)
    ∧ follow alice bob (recovered w1)
      = Some (mkRes 200 (JFollow [bob] [alice]), w2)
    ∧ users w2 = specFollow alice bob nobody nobody (users worldFailing).
Proof.
  apply (follow_retry_after_any_failure alice bob nobody nobody worldFailing).
  - discriminate.
  - reflexivity.
  - by vm_compute.
  - by vm_compute.
Defined.

(** ** Refusals write nothing *)

Lemma returns_ret {A} (Q : A → Prop) a : Q a → returns Q (mret a : M A).
Proof. intros Ha w a'. cbn. by intros [= <-]. Qed.

Lemma returns_bind {A B} (Q : B → Prop) (m : M A) (k : A → M B) :
  (∀ a, returns Q (k a)) → returns Q (m ≫= k).
Proof.
  intros Hk w b. unfold mbind, M_bind, bind.
  destruct (m w) as [[e|a] w1]; [done|]. apply Hk.
Qed.

Lemma tryCatch_status (Q : Response → Prop) block msg w :
  returns Q block →
  fst (tryCatch block msg w) = mkRes 500 (JMessage msg)
  ∨ Q (fst (tryCatch block msg w)).
Proof.
  intros HQ. unfold tryCatch. specialize (HQ w).
  destruct (block w) as [[e|r] w1]; [by left|]. right. by apply HQ.
Qed.

Ltac returns_200 :=
  repeat first
    [ apply returns_ret; reflexivity
    | apply returns_bind; intros ?
    | case_match ].

Lemma followUser_refused req w r w' :
  followUser req w = (r, w') →
  status r = 200 ∨ status r = 500 ∨ users w' = users w.
Proof.
  unfold followUser.
  case_match; [|by intros [= <- <-]; right; right].
  case_match; [by intros [= <- <-]; right; right|].
  unfold findById.
  destruct (ObjectId.cast _) as [k|]; [|by intros [= <- <-]; right; left].
  unfold tryCatch. unfold mbind at 1. unfold M_bind, bind. rewrite findByKey_run.
  destruct (faulty w); [by intros [= <- <-]; right; left|].
  destruct (users w !! k) as [u|]; cbn [fmap option_fmap option_map];
    [|by intros [= <- <-]; right; right].
  match goal with
  | |- context [let (_, _) := ?blk ?w1 in _] =>
      pose proof (tryCatch_status (λ r, status r = 200) blk
                    "Server error while following user" w1) as Hst
  end.
  unfold tryCatch in Hst. intros Hrun. rewrite Hrun in Hst. cbn [fst] in Hst.
  destruct Hst as [->|Hst]; [by returns_200| |]; [by right; left | by left].
Qed.

Lemma unfollowUser_refused req w r w' :
  unfollowUser req w = (r, w') →
  status r = 200 ∨ status r = 500 ∨ users w' = users w.
Proof.
  unfold unfollowUser.
  case_match; [|by intros [= <- <-]; right; right].
  case_match; [by intros [= <- <-]; right; right|].
  unfold findById.
  destruct (ObjectId.cast _) as [k|]; [|by intros [= <- <-]; right; left].
  unfold tryCatch. unfold mbind at 1. unfold M_bind, bind. rewrite findByKey_run.
  destruct (faulty w); [by intros [= <- <-]; right; left|].
  destruct (users w !! k) as [u|]; cbn [fmap option_fmap option_map];
    [|by intros [= <- <-]; right; right].
  match goal with
  | |- context [let (_, _) := ?blk ?w1 in _] =>
      pose proof (tryCatch_status (λ r, status r = 200) blk
                    "Server error while unfollowing user" w1) as Hst
  end.
  unfold tryCatch in Hst. intros Hrun. rewrite Hrun in Hst. cbn [fst] in Hst.
  destruct Hst as [->|Hst]; [by returns_200| |]; [by right; left | by left].
Qed.

(** X13. followUser and unfollowUser answer 200, 500, or a refusal that
    has written nothing: whenever the answer is neither 200 nor 500 (the
    400 of the guards, the 404 of a missing target), every record of the
    users collection is as it was. *)
Theorem follow_handlers_refusals_write_nothing req w :
  (status (fst (followUser req w)) ≠ 200 →
   status (fst (followUser req w)) ≠ 500 →
   users (snd (followUser req w)) = users w)
  ∧ (status (fst (unfollowUser req w)) ≠ 200 →
     status (fst (unfollowUser req w)) ≠ 500 →
     users (snd (unfollowUser req w)) = users w).
Proof.
  split; intros H200 H500.
  - destruct (followUser req w) as [r w'] eqn:Hrun.
    by destruct (followUser_refused req w r w' Hrun) as [?|[?|?]].
  - destruct (unfollowUser req w) as [r w'] eqn:Hrun.
    by destruct (unfollowUser_refused req w r w' Hrun) as [?|[?|?]].
Qed.

Lemma follow_handlers_refusals_write_nothing_witness :
  users (snd (followUser (mkReq (mkUserDoc alice nobody)
                                {[ "userIdToFollow" := carol ]}) world0))
  = users world0.
Proof.
  apply (proj1 (follow_handlers_refusals_write_nothing
                  (mkReq (mkUserDoc alice nobody) {[ "userIdToFollow" := carol ]})
                  world0)); vm_compute; discriminate.
Defined.

(** ** Lists stay free of duplicates *)

Lemma noDuplicates_insert us k u :
  noDuplicates us →
  NoDup (followedUsers u) → NoDup (followers u) →
  NoDup (bookmarkedResources u) →
  noDuplicates (<[k := u]> us).
Proof.
  intros Hus H1 H2 H3 j uj. destruct (decide (j = k)) as [->|Hjk].
  - rewrite lookup_insert_eq. by intros [= <-].
  - rewrite lookup_insert_ne by done. apply Hus.
Qed.

Lemma NoDup_without x (l : list ObjectId) : NoDup l → NoDup (without x l).
Proof. apply NoDup_filter. Qed.

Lemma NoDup_snoc_fresh (x : ObjectId) (l : list ObjectId) :
  NoDup l → x ∉ l → NoDup (l ++ [x]).
Proof.
  intros Hl Hx. apply NoDup_app. split; [done|]. split; [|apply NoDup_singleton].
  by intros y Hy ->%list_elem_of_singleton.
Qed.

Lemma noDuplicates_specFollow a b ua ub us :
  us !! a = Some ua → us !! b = Some ub → noDuplicates us →
  noDuplicates (<[a := setFollowedUsers (addToSet b (followedUsers ua)) ua]> us)
  ∧ noDuplicates (specFollow a b ua ub us).
Proof.
  intros Ha Hb Hus.
  destruct (Hus a ua Ha) as (Ha1 & Ha2 & Ha3), (Hus b ub Hb) as (Hb1 & Hb2 & Hb3).
  assert (H1 : noDuplicates
                 (<[a := setFollowedUsers (addToSet b (followedUsers ua)) ua]> us))
    by (apply noDuplicates_insert; [done|by apply NoDup_addToSet|done..]).
  split; [done|]. unfold specFollow.
  apply noDuplicates_insert; [done|done|by apply NoDup_addToSet|done].
Qed.

Lemma noDuplicates_specUnfollow a b ua ub us :
  us !! a = Some ua → us !! b = Some ub → noDuplicates us →
  noDuplicates (<[a := setFollowedUsers (without b (followedUsers ua)) ua]> us)
  ∧ noDuplicates (specUnfollow a b ua ub us).
Proof.
  intros Ha Hb Hus.
  destruct (Hus a ua Ha) as (Ha1 & Ha2 & Ha3), (Hus b ub Hb) as (Hb1 & Hb2 & Hb3).
  assert (H1 : noDuplicates
                 (<[a := setFollowedUsers (without b (followedUsers ua)) ua]> us))
    by (apply noDuplicates_insert; [done|by apply NoDup_without|done..]).
  split; [done|]. unfold specUnfollow.
  apply noDuplicates_insert; [done|done|by apply NoDup_without|done].
Qed.

Lemma asUser_inv actor fieldName value handler w r w' :
  asUser actor fieldName value handler w = Some (r, w') →
  ∃ u, users w !! actor = Some u
    ∧ handler (mkReq (mkUserDoc actor u) {[ fieldName := value ]}) w = (r, w').
Proof.
  unfold asUser. destruct (users w !! actor) as [u|]; [|done].
  intros [= Hrun]. by exists u.
Qed.

Lemma follow_self_or_missing a x w r w' :
  ObjectId.canonical x → (a = x ∨ users w !! x = None) →
  (follow a x w = Some (r, w') → users w' = users w)
  ∧ (unfollow a x w = Some (r, w') → users w' = users w).
Proof.
  intros Hx Hcase.
  assert (Ht : truthy (Some x) = Some x) by (by eapply truthy_cast).
  split; intros Hrun; destruct (asUser_inv _ _ _ _ _ _ _ Hrun) as (ua & Ha & Hh);
    revert Hh; [unfold followUser|unfold unfollowUser];
    cbn [user body _id]; rewrite lookup_singleton_eq, Ht;
    (case_bool_decide as Hax; [by intros [= <- <-]|]);
    (destruct Hcase as [->|Hnone]; [done|]);
    unfold tryCatch, findById; rewrite Hx;
    unfold mbind at 1; unfold M_bind, bind; rewrite findByKey_run;
    (destruct (faulty w); [by intros [= <- <-]|]);
    cbn [users advance]; rewrite Hnone; by intros [= <- <-].
Qed.

(** X14. Lists without duplicates stay without duplicates: when no
    followedUsers, followers or bookmarkedResources list of the collection
    holds an id twice, the same is true after bookmarkResource,
    unbookmarkResource, followUser or unfollowUser called with an id in its
    printed form in the body, whatever the call answers and whatever store
    faults interrupt it. *)
Theorem handlers_keep_lists_duplicate_free a x w r w' :
  ObjectId.canonical x → noDuplicates (users w) →
  (bookmark a x w = Some (r, w') → noDuplicates (users w'))
  ∧ (unbookmark a x w = Some (r, w') → noDuplicates (users w'))
  ∧ (follow a x w = Some (r, w') → noDuplicates (users w'))
  ∧ (unfollow a x w = Some (r, w') → noDuplicates (users w')).
Proof.
  intros Hx Hus. split; [|split; [|split]]; intros Hrun.
  - destruct (asUser_inv _ _ _ _ _ _ _ Hrun) as (u & Hu & Hh).
    destruct (Hus a u Hu) as (H1 & H2 & H3).
    destruct (bookmarkResource_cases _ _ _ _ Hh)
      as [[_ ->]|(s & u' & Hs & Hu' & _ & l & _ &
                  [(_ & _ & ->)|(Hfresh & k & Hk & -> & ->)])]; [done..|].
    cbn [user body _id] in *. rewrite lookup_singleton_eq in Hs.
    rewrite (truthy_cast _ _ Hx) in Hs. simplify_eq.
    assert (k = s) as -> by (unfold ObjectId.canonical in Hx; congruence).
    apply noDuplicates_insert; [done..|]. by apply NoDup_snoc_fresh.
  - destruct (asUser_inv _ _ _ _ _ _ _ Hrun) as (u & Hu & Hh).
    destruct (Hus a u Hu) as (H1 & H2 & H3).
    destruct (unbookmarkResource_cases _ _ _ _ Hh)
      as [[_ ->]|(s & u' & Hs & Hu' & _ & _ & ->)]; [done|].
    cbn [user body _id] in *. simplify_eq.
    apply noDuplicates_insert; [done..|]. by apply NoDup_without.
  - destruct (asUser_inv _ _ _ _ _ _ _ Hrun) as (ua & Ha & _).
    destruct (decide (a = x)) as [Hax|Hax];
      [by rewrite (proj1 (follow_self_or_missing a x w r w' Hx (or_introl Hax)))|].
    destruct (users w !! x) as [ux|] eqn:Hux;
      [|by rewrite (proj1 (follow_self_or_missing a x w r w' Hx (or_intror Hux)))].
    destruct (noDuplicates_specFollow a x ua ux _ Ha Hux Hus) as [Hside Hboth].
    by destruct (follow_states a x ua ux w r w' Hax Hx Ha Hux Hrun)
      as [->|[->| ->]].
  - destruct (asUser_inv _ _ _ _ _ _ _ Hrun) as (ua & Ha & _).
    destruct (decide (a = x)) as [Hax|Hax];
      [by rewrite (proj2 (follow_self_or_missing a x w r w' Hx (or_introl Hax)))|].
    destruct (users w !! x) as [ux|] eqn:Hux;
      [|by rewrite (proj2 (follow_self_or_missing a x w r w' Hx (or_intror Hux)))].
    destruct (noDuplicates_specUnfollow a x ua ux _ Ha Hux Hus) as [Hside Hboth].
    by destruct (unfollow_states a x ua ux w r w' Hax Hx Ha Hux Hrun)
      as [->|[->| ->]].
Qed.

Lemma noDuplicates_world0 : noDuplicates (users world0).
Proof.
  intros k u Hk. cbn [users world0] in Hk.
  apply lookup_insert_Some in Hk as [[_ <-]|[_ Hk]];
    [|apply lookup_insert_Some in Hk as [[_ <-]|[_ Hk]]; [|done]];
    cbn; repeat split; apply NoDup_nil_2.
Qed.

Lemma handlers_keep_lists_duplicate_free_witness :
  ∃ r w', follow alice bob worldFailing = Some (r, w')
    ∧ noDuplicates (users w').
Proof.
  destruct (follow alice bob worldFailing) as [[r w']|] eqn:Hrun;
    [|by vm_compute in Hrun].
  exists r, w'. split; [done|].
  exact (proj1 (proj2 (proj2
           (handlers_keep_lists_duplicate_free alice bob worldFailing r w'
              eq_refl noDuplicates_world0))) Hrun).
Defined.

(** ** The tally read path *)

Import Topics.

Lemma votesFor_snoc k vs v :
  votesFor k (vs ++ [v])
  = votesFor k vs ++ (if decide (resource v = k) then [v] else []).
Proof.
  unfold votesFor. by rewrite filter_app.
Qed.

Lemma talliedFrom_other vs0 vs vs' r t :
  votesFor (_id r) vs' = votesFor (_id r) vs →
  talliedFrom vs0 vs r t → talliedFrom vs0 vs' r t.
Proof.
  intros Heq [Hp Ht]. split; [done|].
  destruct (findOne (_id r) vs0); by rewrite Heq.
Qed.

Lemma taskOk_other vs0 vs vs' r t :
  votesFor (_id r) vs' = votesFor (_id r) vs →
  taskOk vs0 vs r t → taskOk vs0 vs' r t.
Proof.
  intros Heq. destruct t; cbn; rewrite ?Heq; try done.
  by apply talliedFrom_other.
Qed.

Lemma resume_taskOk unique vs0 vs r t :
  taskOk vs0 vs r t →
  taskOk vs0 (snd (resume unique t vs)) r (fst (resume unique t vs))
  ∧ (snd (resume unique t vs) = vs
     ∨ snd (resume unique t vs) = vs ++ [mkVote (_id r) [] []]).
Proof.
  destruct t as [r'|r'|t|e]; cbn [taskOk resume].
  - intros [-> Heq]. unfold findOne. rewrite Heq.
    destruct (head (votesFor (_id r) vs0)) as [vote|] eqn:Hhead; cbn.
    + split; [|by left]. split; [done|]. unfold findOne. by rewrite Hhead.
    + split; [|by left]. apply head_None in Hhead.
      split; [done|]. split; [done|]. exact (eq_trans Heq Hhead).
  - intros (-> & H0 & Hvs). unfold create. cbn [resource].
    rewrite Hvs, bool_decide_true, andb_false_r by done. cbn.
    split; [|by right]. split; [done|]. unfold findOne. rewrite H0. cbn.
    split; [done|]. split; [done|].
    by rewrite votesFor_snoc, Hvs, decide_True.
  - intros H. cbn. split; [done|by left].
  - done.
Qed.

Lemma step_tasksOk unique vs0 rs s e :
  NoDup (_id <$> rs) → isResume e →
  tasksOk vs0 rs s → tasksOk vs0 rs (step unique s e).
Proof.
  intros Hnd He (Hlen & Htasks & Hrest). destruct e as [i|]; [|done].
  destruct s as [tasks vs]. unfold step. cbn [fst snd] in *.
  destruct (tasks !! i) as [t|] eqn:Ht; [|done].
  destruct (lookup_lt_is_Some_2 rs i) as [r Hr].
  { rewrite <- Hlen. by eapply lookup_lt_Some. }
  destruct (resume_taskOk unique vs0 vs r t (Htasks i r t Hr Ht)) as [Hok Hvs].
  destruct (resume unique t vs) as [t' vs']. unfold tasksOk. cbn [fst snd] in *.
  split; [by rewrite length_insert|]. split.
  - intros j rj tj Hrj Htj. destruct (decide (i = j)) as [<-|Hij].
    + rewrite list_lookup_insert_eq in Htj by (by eapply lookup_lt_Some).
      by simplify_eq.
    + rewrite list_lookup_insert_ne in Htj by done.
      eapply taskOk_other; [|by eapply Htasks].
      destruct Hvs as [->| ->]; [done|].
      rewrite votesFor_snoc, decide_False, app_nil_r; [done|]. cbn.
      intros Heq. apply Hij.
      eapply (NoDup_lookup (_id <$> rs)); [done|..];
        rewrite list_lookup_fmap; [by rewrite Hr | by rewrite Hrj; cbn; rewrite Heq].
  - intros k Hk. rewrite <- Hrest by done.
    destruct Hvs as [->| ->]; [done|].
    rewrite votesFor_snoc, decide_False, app_nil_r; [done|]. cbn.
    intros <-. apply Hk. apply list_elem_of_fmap. exists r. split; [done|].
    by eapply list_elem_of_lookup_2.
Qed.

Lemma run_tasksOk unique vs0 rs sched s :
  NoDup (_id <$> rs) → Forall isResume sched →
  tasksOk vs0 rs s → tasksOk vs0 rs (run unique sched s).
Proof.
  intros Hnd Hsched. revert s. induction Hsched as [|e sched He _ IH]; [done|].
  intros s Hs. cbn. apply IH. by apply step_tasksOk.
Qed.

Lemma tasksOk_start vs0 rs : tasksOk vs0 rs (AwaitFindOne <$> rs, vs0).
Proof.
  unfold tasksOk. cbn [fst snd].
  split; [by rewrite length_fmap|]. split; [|done].
  intros i r t Hr Ht. rewrite list_lookup_fmap, Hr in Ht.
  cbn in Ht. simplify_eq. by split.
Qed.

Lemma tasksOk_promiseAll vs0 vs rs tasks x :
  tasksOk vs0 rs (tasks, vs) → promiseAll tasks = Some x →
  ∃ tallied, x = inr tallied ∧ Forall2 (talliedFrom vs0 vs) rs tallied.
Proof.
  intros (Hlen & Htasks & _). cbn [fst snd] in *.
  assert (HF : Forall2 (taskOk vs0 vs) rs tasks).
  { apply Forall2_same_length_lookup_2; [done|]. intros i r t. apply Htasks. }
  clear Hlen Htasks. unfold promiseAll. revert x.
  induction HF as [|r t rs tasks Hrt HF IH]; intros x.
  - cbn. intros [= <-]. by exists [].
  - cbn [firstRejected allFulfilled].
    destruct (firstRejected tasks) as [e|] eqn:Hrej;
      [by destruct (IH (inl e) eq_refl) as (? & ? & _)|].
    destruct t as [r'|r'|t|e]; cbn in *; try done.
    destruct (allFulfilled tasks) as [tl|] eqn:Hall; cbn; [|done].
    intros [= <-]. destruct (IH (inr tl) eq_refl) as (tl' & [= <-] & Htl).
    exists (t :: tl). split; [done|]. by constructor.
Qed.

(** The handler answers: when the store resumes the callbacks in order,
    every callback settles. *)

Lemma resume_settled unique t vs : settled t → resume unique t vs = (t, vs).
Proof. by destruct t. Qed.

Lemma resume_twice_settled unique t vs :
  settled (fst (resume unique (fst (resume unique t vs))
                       (snd (resume unique t vs)))).
Proof.
  destruct t as [r|r|t|e]; cbn [resume]; try done.
  - destruct (findOne (_id r) vs); cbn [fst snd resume]; [done|].
    by destruct (create unique _ vs).
  - by destruct (create unique _ vs).
Qed.

Lemma step_length unique s e : length (fst (step unique s e)) = length (fst s).
Proof.
  destruct e as [i|r]; cbn [step].
  - destruct (fst s !! i) as [t|]; [|done].
    destruct (resume unique t (snd s)). cbn [fst]. apply length_insert.
  - by destruct (create unique _ (snd s)).
Qed.

Lemma step_settled unique s e j t :
  fst s !! j = Some t → settled t → fst (step unique s e) !! j = Some t.
Proof.
  intros Hj Ht. destruct e as [i|r]; cbn [step].
  - destruct (fst s !! i) as [ti|] eqn:Hi; [|done].
    destruct (decide (i = j)) as [->|Hij].
    + simplify_eq. rewrite resume_settled by done. cbn [fst].
      by rewrite list_insert_id.
    + destruct (resume unique ti (snd s)). cbn [fst].
      by rewrite list_lookup_insert_ne.
  - by destruct (create unique _ (snd s)).
Qed.

Lemma step_twice_settles unique s i :
  i < length (fst s) →
  ∃ t, fst (step unique (step unique s (Resume i)) (Resume i)) !! i = Some t
       ∧ settled t.
Proof.
  intros Hi. destruct (lookup_lt_is_Some_2 _ _ Hi) as [t Ht].
  pose proof (resume_twice_settled unique t (snd s)) as Hset.
  cbn [step]. rewrite Ht.
  destruct (resume unique t (snd s)) as [t1 vs1]. cbn [fst snd] in *.
  rewrite list_lookup_insert_eq by done.
  destruct (resume unique t1 vs1) as [t2 vs2]. cbn [fst snd] in *.
  exists t2. split; [|done].
  rewrite list_lookup_insert_eq; [done|]. by rewrite length_insert.
Qed.

Lemma inOrder_S n : inOrder (S n) = inOrder n ++ [Resume n; Resume n].
Proof. unfold inOrder. by rewrite seq_S, flat_map_app. Qed.

Lemma run_length unique sched s :
  length (fst (run unique sched s)) = length (fst s).
Proof.
  revert s. induction sched as [|e sched IH]; intros s; [done|].
  cbn. unfold run in IH. by rewrite IH, step_length.
Qed.

Lemma run_inOrder_settled unique n s j :
  n ≤ length (fst s) → j < n →
  ∃ t, fst (run unique (inOrder n) s) !! j = Some t ∧ settled t.
Proof.
  revert j. induction n as [|n IH]; intros j Hn Hj; [lia|].
  rewrite inOrder_S. unfold run. rewrite foldl_app. fold (run unique (inOrder n) s).
  set (s' := run unique (inOrder n) s).
  assert (Hlen : length (fst s') = length (fst s)) by apply run_length.
  destruct (decide (j = n)) as [->|Hjn].
  - cbn [foldl]. apply step_twice_settles. lia.
  - destruct (IH j) as (t & Ht & Hset); [lia..|].
    exists t. split; [|done]. cbn [foldl].
    apply step_settled; [|done]. by apply step_settled.
Qed.

Lemma promiseAll_settled tasks : Forall settled tasks → is_Some (promiseAll tasks).
Proof.
  unfold promiseAll. induction 1 as [|t tasks Ht _ IH]; [by eexists|].
  destruct t as [r|r|t|e]; try done; cbn [firstRejected allFulfilled].
  destruct (firstRejected tasks); [by eexists|].
  destruct (allFulfilled tasks); [by eexists|]. by destruct IH.
Qed.

Lemma getTopicBySlug_inOrder s db : is_Some (getTopicBySlug (inOrder (length
  match findTopic s db with Some (_, rs) => rs | None => [] end)) s db).
Proof.
  unfold getTopicBySlug. destruct (findTopic s db) as [[topic rs]|]; [|by eexists].
  unfold tallyTasks.
  set (s0 := (AwaitFindOne <$> rs, votes db)).
  destruct (run (uniqueVoteResource db) (inOrder (length rs)) s0) as [tasks vs] eqn:Hrun.
  destruct (promiseAll_settled tasks) as [x Hx].
  { apply Forall_lookup. intros j t Ht.
    assert (Hlen : length tasks = length rs).
    { change tasks with (fst (tasks, vs)). rewrite <- Hrun, run_length.
      apply length_fmap. }
    destruct (run_inOrder_settled (uniqueVoteResource db) (length rs) s0 j)
      as (t' & Ht' & Hset).
    - unfold s0. cbn [fst]. by rewrite length_fmap.
    - rewrite <- Hlen. by eapply lookup_lt_Some.
    - rewrite Hrun in Ht'. cbn [fst] in Ht'. by simplify_eq. }
  rewrite Hx. destruct x; by eexists.
Qed.

Lemma inOrder_isResume n : Forall isResume (inOrder n).
Proof.
  induction n as [|n IH]; [constructor|].
  rewrite inOrder_S. apply Forall_app. split; [done|]. by repeat constructor.
Qed.

(** C6. When the topic's resource list has no duplicate and no other
    writer touches the votes collection, the handler answers (it does when
    the store resumes the callbacks in order), and whenever it answers it
    answers 200 with one entry per resource, in order: for a resource with
    no Vote record the counts are 0 and 0 and the collection then holds
    exactly one record for it, with empty voter sets; for a resource with
    a Vote record the counts are the sizes of its voter sets and the
    records for that resource are untouched.  Nothing else changes. *)
Theorem getTopicBySlug_tally sched s db topic rs :
  findTopic s db = Some (topic, rs) → NoDup (_id <$> rs) →
  Forall isResume sched →
  (∀ res db', getTopicBySlug sched s db = Some (res, db') →
     ∃ tallied, res = mkRes 200 (JTopic topic tallied)
       ∧ Forall2 (talliedFrom (votes db) (votes db')) rs tallied
       ∧ (∀ k, k ∉ _id <$> rs → votesFor k (votes db') = votesFor k (votes db))
       ∧ topics db' = topics db ∧ resourceDocs db' = resourceDocs db)
  ∧ is_Some (getTopicBySlug (inOrder (length rs)) s db)
  ∧ Forall isResume (inOrder (length rs)).
Proof.
  intros Hfind Hnd Hsched. split; [|split].
  - intros res db' Hrun. unfold getTopicBySlug in Hrun. rewrite Hfind in Hrun.
    pose proof (run_tasksOk (uniqueVoteResource db) (votes db) rs sched _
                  Hnd Hsched (tasksOk_start (votes db) rs)) as Hok.
    unfold tallyTasks in Hrun.
    destruct (run (uniqueVoteResource db) sched (AwaitFindOne <$> rs, votes db))
      as [tasks vs].
    destruct (promiseAll tasks) as [x|] eqn:Hall; [|done].
    destruct (tasksOk_promiseAll _ _ _ _ _ Hok Hall) as (tallied & -> & Htallied).
    simplify_eq. exists tallied. split; [done|]. cbn [votes withVotes].
    split; [done|]. split; [|done]. apply Hok.
  - pose proof (getTopicBySlug_inOrder s db) as H. by rewrite Hfind in H.
  - apply inOrder_isResume.
Qed.

Lemma getTopicBySlug_tally_witness :
  ∃ res db' tallied,
    getTopicBySlug (inOrder 1) "rocq" db1 = Some (res, db')
    ∧ res = mkRes 200 (JTopic topic1 tallied)
    ∧ Forall2 (talliedFrom (votes db1) (votes db')) [resource1] tallied
    ∧ topics db' = topics db1 ∧ resourceDocs db' = resourceDocs db1.
Proof.
  destruct (getTopicBySlug_tally (inOrder 1) "rocq" db1 topic1 [resource1])
    as (Htally & [[res db'] Hrun] & _).
  - by vm_compute.
  - apply NoDup_singleton.
  - apply inOrder_isResume.
  - destruct (Htally res db' Hrun) as (tallied & Hres & Hall & _ & Ht & Hr).
    by exists res, db', tallied.
Defined.

Example getTopicBySlug_scenario :
  getTopicBySlug (inOrder 1) "rocq" db1
  = Some (mkRes 200 (JTopic topic1 [mkTallied resource1 0 0]),
          withVotes db1 [mkVote "0000000000000000000000f1" [] []]).
Proof. by vm_compute. Qed.

(** ** A conflicting lazy create *)

Lemma firstRejected_elem_of tasks e :
  Rejected e ∈ tasks → is_Some (firstRejected tasks).
Proof.
  induction tasks as [|t tasks IH]; [by intros ?%elem_of_nil|].
  intros [<-|Hin]%elem_of_cons; [by eexists|].
  destruct t; cbn; eauto.
Qed.

(** C7, as amended.  When Vote.create reports a conflict (the collection
    carries the unique index and already holds a record for the resource),
    the callback is rejected with that error and reads nothing again; and
    whenever a callback of the request is rejected, getTopicBySlug answers
    500 "Server error while fetching topic". *)
Theorem getTopicBySlug_conflict_500 sched s db topic rs :
  findTopic s db = Some (topic, rs) →
  (∀ r vs, votesFor (_id r) vs ≠ [] →
     resume true (AwaitCreate r) vs = (Rejected DuplicateKeyError, vs))
  ∧ (∀ e, Rejected e ∈ fst (tallyTasks sched rs db) →
      getTopicBySlug sched s db
      = Some (mkRes 500 (JMessage "Server error while fetching topic"),
              withVotes db (snd (tallyTasks sched rs db)))).
Proof.
  intros Hfind. split.
  - intros r vs Hvs. cbn [resume]. unfold create. cbn [resource].
    by rewrite bool_decide_false.
  - intros e [e' He]%firstRejected_elem_of.
    unfold getTopicBySlug. rewrite Hfind.
    destruct (tallyTasks sched rs db) as [tasks vs]. cbn [fst snd] in *.
    unfold promiseAll. by rewrite He.
Qed.

Lemma getTopicBySlug_conflict_500_witness :
  Rejected DuplicateKeyError ∈ fst (tallyTasks raceSchedule [resource1] db1)
  ∧ getTopicBySlug raceSchedule "rocq" db1
    = Some (mkRes 500 (JMessage "Server error while fetching topic"),
            withVotes db1 (snd (tallyTasks raceSchedule [resource1] db1))).
Proof.
  assert (Hin : Rejected DuplicateKeyError
                ∈ fst (tallyTasks raceSchedule [resource1] db1))
    by (vm_compute; apply list_elem_of_here).
  split; [exact Hin|].
  apply (getTopicBySlug_conflict_500 raceSchedule "rocq" db1 topic1 [resource1]
           eq_refl) with (e := DuplicateKeyError).
  exact Hin.
Defined.

(** C7 as stated fails: the callback looks up the vote and finds none,
    another request's create for the same resource lands, and the
    callback's own create then conflicts.  The winner's record is in the
    collection, yet the caller is answered 500, not the tally of that
    record. *)
Lemma conflict_not_recovered :
  fst (tallyTasks raceSchedule [resource1] db1) = [Rejected DuplicateKeyError]
  ∧ findOne (_id resource1) (snd (tallyTasks raceSchedule [resource1] db1))
    = Some (mkVote (_id resource1) [] [])
  ∧ getTopicBySlug raceSchedule "rocq" db1
    = Some (mkRes 500 (JMessage "Server error while fetching topic"),
            withVotes db1 [mkVote (_id resource1) [] []])
  ∧ getTopicBySlug raceSchedule "rocq" db1
    ≠ Some (mkRes 200 (JTopic topic1 [mkTallied resource1 0 0]),
            withVotes db1 [mkVote (_id resource1) [] []]).
Proof.
  split; [by vm_compute|]. split; [by vm_compute|].
  assert (Hrun : getTopicBySlug raceSchedule "rocq" db1
    = Some (mkRes 500 (JMessage "Server error while fetching topic"),
            withVotes db1 [mkVote (_id resource1) [] []])) by (by vm_compute).
  split; [exact Hrun|]. rewrite Hrun. discriminate.
Qed.

(** ** More of getTopicBySlug *)

Lemma create_appends unique v vs vs' :
  create unique v vs = inr vs' → vs' = vs ++ [v].
Proof. unfold create. case_match; [done|]. by intros [= <-]. Qed.

Lemma resume_appends unique t vs :
  ∃ added, snd (resume unique t vs) = vs ++ added ∧ Forall isEmptyVote added.
Proof.
  destruct t as [r|r|t|e]; cbn [resume].
  - exists []. rewrite app_nil_r. split; [|done].
    by destruct (findOne (_id r) vs).
  - destruct (create unique _ vs) as [e|vs'] eqn:Hc.
    + exists []. by rewrite app_nil_r.
    + apply create_appends in Hc as ->. eexists. split; [done|].
      by repeat constructor.
  - exists []. by rewrite app_nil_r.
  - exists []. by rewrite app_nil_r.
Qed.

Lemma step_appends unique s e :
  ∃ added, snd (step unique s e) = snd s ++ added ∧ Forall isEmptyVote added.
Proof.
  destruct e as [i|r]; cbn [step].
  - destruct (fst s !! i) as [t|]; [|exists []; by rewrite app_nil_r].
    destruct (resume_appends unique t (snd s)) as (added & Heq & Hall).
    destruct (resume unique t (snd s)) as [t' vs']. cbn [snd] in *. by exists added.
  - destruct (create unique _ (snd s)) as [e|vs'] eqn:Hc.
    + exists []. by rewrite app_nil_r.
    + apply create_appends in Hc as ->. eexists. split; [done|].
      by repeat constructor.
Qed.

Lemma run_appends unique sched s :
  ∃ added, snd (run unique sched s) = snd s ++ added ∧ Forall isEmptyVote added.
Proof.
  revert s. induction sched as [|e sched IH]; intros s.
  - exists []. by rewrite app_nil_r.
  - cbn. destruct (step_appends unique s e) as (a1 & H1 & Ha1).
    destruct (IH (step unique s e)) as (a2 & H2 & Ha2).
    exists (a1 ++ a2). unfold run in H2. rewrite H2, H1, <- app_assoc.
    split; [done|]. by apply Forall_app.
Qed.

(** X15. Whatever the store does and whatever getTopicBySlug answers, the
    handler only appends to the votes collection: the records that were
    there are still there, unchanged and in the same order, every record
    added has empty upvoters and downvoters, and topics and resources are
    untouched. *)
Theorem getTopicBySlug_only_appends_votes sched s db res db' :
  getTopicBySlug sched s db = Some (res, db') →
  (∃ added, votes db' = votes db ++ added ∧ Forall isEmptyVote added)
  ∧ topics db' = topics db ∧ resourceDocs db' = resourceDocs db
  ∧ uniqueVoteResource db' = uniqueVoteResource db.
Proof.
  unfold getTopicBySlug.
  destruct (findTopic s db) as [[topic rs]|].
  2:{ intros [= <- <-]. split; [|done]. exists []. by rewrite app_nil_r. }
  unfold tallyTasks.
  pose proof (run_appends (uniqueVoteResource db) sched
                (AwaitFindOne <$> rs, votes db)) as (added & Heq & Hall).
  destruct (run _ sched _) as [tasks vs]. cbn [snd] in Heq.
  destruct (promiseAll tasks) as [[e|tl]|]; [| |done];
    intros [= <- <-]; (split; [|done]); by exists added.
Qed.

Lemma getTopicBySlug_only_appends_votes_witness :
  ∃ res db' added,
    getTopicBySlug raceSchedule "rocq" db1 = Some (res, db')
    ∧ votes db' = votes db1 ++ added ∧ Forall isEmptyVote added.
Proof.
  destruct (getTopicBySlug raceSchedule "rocq" db1) as [[res db']|] eqn:Hrun;
    [|by vm_compute in Hrun].
  destruct (getTopicBySlug_only_appends_votes _ _ _ _ _ Hrun)
    as ((added & Heq & Hall) & _).
  exists res, db', added. exact (conj eq_refl (conj Heq Hall)).
Defined.

(** ** Reading tallies that are already there *)

Lemma findOne_app_Some r vs added vote :
  findOne r vs = Some vote → findOne r (vs ++ added) = Some vote.
Proof.
  unfold findOne, votesFor. rewrite filter_app.
  destruct (filter _ vs) as [|v l]; [done|]. by cbn.
Qed.

Lemma readOk_resume unique vs0 added r t vote :
  findOne (_id r) vs0 = Some vote → readOk vs0 r t →
  resume unique t (vs0 ++ added) = (Fulfilled (tally r vote), vs0 ++ added).
Proof.
  intros Hv. destruct t as [r'|r'|t|e]; cbn [readOk resume]; try done.
  - intros ->. by rewrite (findOne_app_Some _ _ _ _ Hv).
  - intros (vote' & Hv' & ->). congruence.
Qed.

Lemma step_readsOk unique vs0 rs s e :
  (∀ r, r ∈ rs → is_Some (findOne (_id r) vs0)) →
  readsOk vs0 rs s →
  readsOk vs0 rs (step unique s e)
  ∧ (isResume e → snd (step unique s e) = snd s).
Proof.
  intros Hall (Hlen & Htasks & added & Hvs). destruct s as [tasks vs].
  cbn [fst snd] in *. subst vs. destruct e as [i|k]; cbn [step fst snd].
  - destruct (tasks !! i) as [t|] eqn:Ht.
    2:{ split; [|done]. split; [done|]. split; [done|]. by exists added. }
    destruct (lookup_lt_is_Some_2 rs i) as [r Hr].
    { rewrite <- Hlen. by eapply lookup_lt_Some. }
    destruct (Hall r) as [vote Hv]; [by eapply list_elem_of_lookup_2|].
    rewrite (readOk_resume unique vs0 added r t vote Hv (Htasks i r t Hr Ht)).
    split; [|done]. unfold readsOk. cbn [fst snd].
    split; [by rewrite length_insert|]. split; [|by exists added].
    intros j rj tj Hrj Htj. destruct (decide (i = j)) as [<-|Hij].
    + rewrite list_lookup_insert_eq in Htj by (by eapply lookup_lt_Some).
      simplify_eq. by exists vote.
    + rewrite list_lookup_insert_ne in Htj by done. by eapply Htasks.
  - split; [|done]. destruct (create unique _ (vs0 ++ added)) as [e|vs'] eqn:Hc.
    + split; [done|]. split; [done|]. by exists added.
    + apply create_appends in Hc as ->. unfold readsOk. cbn [fst snd].
      split; [done|]. split; [done|]. eexists. by rewrite <- app_assoc.
Qed.

Lemma run_readsOk unique vs0 rs sched s :
  (∀ r, r ∈ rs → is_Some (findOne (_id r) vs0)) →
  readsOk vs0 rs s →
  readsOk vs0 rs (run unique sched s)
  ∧ (Forall isResume sched → snd (run unique sched s) = snd s).
Proof.
  intros Hall. revert s. induction sched as [|e sched IH]; intros s Hs; [done|].
  cbn. destruct (step_readsOk unique vs0 rs s e Hall Hs) as [Hs1 Hvs1].
  destruct (IH _ Hs1) as [Hs2 Hvs2]. split; [done|].
  intros [He Hsched]%Forall_cons. unfold run in Hvs2. by rewrite Hvs2, Hvs1.
Qed.

Lemma readsOk_start vs0 rs : readsOk vs0 rs (AwaitFindOne <$> rs, vs0).
Proof.
  unfold readsOk. cbn [fst snd]. split; [by rewrite length_fmap|].
  split; [|exists []; by rewrite app_nil_r].
  intros i r t Hr Ht. rewrite list_lookup_fmap, Hr in Ht. cbn in Ht. by simplify_eq.
Qed.

Lemma readsOk_promiseAll vs0 rs tasks vs x :
  readsOk vs0 rs (tasks, vs) → promiseAll tasks = Some x →
  ∃ tallied, x = inr tallied
    ∧ Forall2 (λ r t, ∃ vote, findOne (_id r) vs0 = Some vote ∧ t = tally r vote)
              rs tallied.
Proof.
  intros (Hlen & Htasks & _). cbn [fst snd] in *.
  assert (HF : Forall2 (readOk vs0) rs tasks).
  { apply Forall2_same_length_lookup_2; [done|]. intros i r t. apply Htasks. }
  clear Hlen Htasks. unfold promiseAll. revert x.
  induction HF as [|r t rs tasks Hrt HF IH]; intros x.
  - cbn. intros [= <-]. by exists [].
  - cbn [firstRejected allFulfilled].
    destruct t as [r'|r'|t|e]; cbn in Hrt; try done.
    + destruct (firstRejected tasks) as [e|] eqn:Hrej; [|done].
      by destruct (IH (inl e) eq_refl) as (? & ? & _).
    + destruct (firstRejected tasks) as [e|] eqn:Hrej;
        [by destruct (IH (inl e) eq_refl) as (? & ? & _)|].
      destruct (allFulfilled tasks) as [tl|] eqn:Hall; cbn; [|done].
      intros [= <-]. destruct (IH (inr tl) eq_refl) as (tl' & [= <-] & Htl).
      exists (t :: tl). split; [done|]. by constructor.
Qed.



(** ** Fetching a topic twice *)

Lemma talliedFrom_findOne vs0 vs r t :
  talliedFrom vs0 vs r t →
  ∃ vote, findOne (_id r) vs = Some vote ∧ t = tally r vote.
Proof.
  intros [Hp Ht]. destruct t as [p u d]. cbn in *. subst p.
  unfold findOne in *.
  destruct (head (votesFor (_id r) vs0)) as [vote|] eqn:Hv.
  - destruct Ht as (-> & -> & ->). by exists vote.
  - destruct Ht as (-> & -> & ->). by eexists.
Qed.

Lemma Forall2_tally_unique vs (rs : list Resource) (tl1 tl2 : list Tallied) :
  Forall2 (λ r t, ∃ vote, findOne (_id r) vs = Some vote ∧ t = tally r vote) rs tl1 →
  Forall2 (λ r t, ∃ vote, findOne (_id r) vs = Some vote ∧ t = tally r vote) rs tl2 →
  tl1 = tl2.
Proof.
  intros H1. revert tl2. induction H1 as [|r t rs tl1 (v & Hv & ->) _ IH];
    intros tl2 H2; inversion H2 as [|? t2 ? tl2' (v2 & Hv2 & ->) H2']; subst;
    [done|]. f_equal; [congruence|]. by apply IH.
Qed.

Lemma findTopic_withVotes s db vs : findTopic s (withVotes db vs) = findTopic s db.
Proof. done. Qed.

(** X17. When the topic's resource list has no duplicate and no other
    writer touches the votes collection: a fetch of the topic is answered
    (it is when the store resumes the callbacks in order), and after a
    first fetch has been answered a second fetch is answered too, and every
    answer it gets is the answer of the first fetch and leaves the database
    exactly as the first fetch left it: the lazy creation happens once. *)
Theorem getTopicBySlug_second_fetch sched1 s db topic rs res1 db1 :
  findTopic s db = Some (topic, rs) → NoDup (_id <$> rs) →
  Forall isResume sched1 →
  getTopicBySlug sched1 s db = Some (res1, db1) →
  is_Some (getTopicBySlug (inOrder (length rs)) s db)
  ∧ is_Some (getTopicBySlug (inOrder (length rs)) s db1)
  ∧ ∀ sched2 res2 db2,
      Forall isResume sched2 →
      getTopicBySlug sched2 s db1 = Some (res2, db2) →
      res2 = res1 ∧ db2 = db1.
Proof.
  intros Hfind Hnd Hs1 Hrun1.
  assert (∃ tallied, res1 = mkRes 200 (JTopic topic tallied)
            ∧ Forall2 (talliedFrom (votes db) (votes db1)) rs tallied
            ∧ findTopic s db1 = Some (topic, rs))
    as (tl1 & -> & Htl1 & Hfind1).
  { revert Hrun1. unfold getTopicBySlug. rewrite Hfind.
    pose proof (run_tasksOk (uniqueVoteResource db) (votes db) rs sched1 _
                  Hnd Hs1 (tasksOk_start (votes db) rs)) as Hok.
    unfold tallyTasks.
    destruct (run _ sched1 _) as [tasks vs].
    destruct (promiseAll tasks) as [x|] eqn:Hall; [|done].
    destruct (tasksOk_promiseAll _ _ _ _ _ Hok Hall) as (tallied & -> & Htallied).
    intros [= <- <-]. exists tallied. split; [done|]. split; [done|].
    by rewrite findTopic_withVotes. }
  split; [|split].
  { pose proof (getTopicBySlug_inOrder s db) as H. by rewrite Hfind in H. }
  { pose proof (getTopicBySlug_inOrder s db1) as H. by rewrite Hfind1 in H. }
  intros sched2 res2 db2 Hs2 Hrun2.
  assert (Htl1' : Forall2 (λ r t, ∃ vote, findOne (_id r) (votes db1) = Some vote
                                         ∧ t = tally r vote) rs tl1).
  { eapply Forall2_impl; [exact Htl1|]. intros r t. apply talliedFrom_findOne. }
  assert (Hall : ∀ r, r ∈ rs → is_Some (findOne (_id r) (votes db1))).
  { intros r [i Hr]%list_elem_of_lookup_1.
    destruct (Forall2_lookup_l _ _ _ _ _ Htl1' Hr) as (t & _ & vote & Hv & _).
    by exists vote. }
  revert Hrun2. unfold getTopicBySlug. rewrite Hfind1. unfold tallyTasks.
  destruct (run_readsOk (uniqueVoteResource db1) (votes db1) rs sched2 _ Hall
              (readsOk_start (votes db1) rs)) as [Hok Hvs].
  destruct (run _ sched2 _) as [tasks vs]. cbn [snd] in Hvs.
  destruct (promiseAll tasks) as [x|] eqn:Hp; [|done].
  destruct (readsOk_promiseAll _ _ _ _ _ Hok Hp) as (tl2 & -> & Htl2).
  intros [= <- <-]. rewrite (Hvs Hs2).
  split; [|by destruct db1]. do 2 f_equal. by eapply Forall2_tally_unique.
Qed.

Lemma getTopicBySlug_second_fetch_witness :
  ∃ res1 db1' res2 db2',
    getTopicBySlug (inOrder 1) "rocq" db1 = Some (res1, db1')
    ∧ getTopicBySlug (inOrder 1) "rocq" db1' = Some (res2, db2')
    ∧ res2 = res1 ∧ db2' = db1'.
Proof.
  destruct (getTopicBySlug (inOrder 1) "rocq" db1) as [[res1 db1']|] eqn:Hrun1;
    [|by vm_compute in Hrun1].
  destruct (getTopicBySlug_second_fetch (inOrder 1) "rocq" db1 topic1
              [resource1] res1 db1')
    as (_ & [[res2 db2'] Hrun2] & Hsame).
  - by vm_compute.
  - apply NoDup_singleton.
  - apply inOrder_isResume.
  - exact Hrun1.
  - exists res1, db1', res2, db2'. split; [done|]. split; [exact Hrun2|].
    exact (Hsame (inOrder 1) res2 db2' (inOrder_isResume 1) Hrun2).
Defined.

(** ** updateTopic *)

Lemma findOneAndUpdate_None s d ts :
  head (filter (λ t, slug t = s) ts) = None →
  TopicAdmin.findOneAndUpdate s d ts = None.
Proof.
  induction ts as [|t ts IH]; [done|]. cbn [TopicAdmin.findOneAndUpdate].
  rewrite filter_cons. case_decide as Hs.
  - done.
  - intros Hnone. rewrite bool_decide_false by done. by rewrite IH.
Qed.

Lemma findOneAndUpdate_Some s d ts t :
  head (filter (λ t, slug t = s) ts) = Some t →
  ∃ ts', TopicAdmin.findOneAndUpdate s d ts
         = Some (TopicAdmin.setDescription d t, ts')
    ∧ head (filter (λ t, slug t = s) ts') = Some (TopicAdmin.setDescription d t)
    ∧ TopicAdmin.outline <$> ts' = TopicAdmin.outline <$> ts
    ∧ (∀ s', s' ≠ s → filter (λ t, slug t = s') ts' = filter (λ t, slug t = s') ts).
Proof.
  assert (Hslug : ∀ t, slug (TopicAdmin.setDescription d t) = slug t) by (by destruct d).
  assert (Hout : ∀ t, TopicAdmin.outline (TopicAdmin.setDescription d t)
                      = TopicAdmin.outline t) by (by destruct d).
  induction ts as [|t0 ts IH]; [done|]. cbn [TopicAdmin.findOneAndUpdate].
  rewrite filter_cons. case_decide as Hs.
  - intros [= <-]. rewrite bool_decide_true by done. eexists. split; [done|].
    split; [by rewrite filter_cons_True by (by rewrite Hslug)|].
    split; [by rewrite !fmap_cons, Hout|].
    intros s' Hs'. rewrite !filter_cons_False; [done|congruence|].
    rewrite Hslug. congruence.
  - intros Hhead. rewrite bool_decide_false by done.
    destruct (IH Hhead) as (ts' & -> & Hh & Ho & Hother).
    eexists. split; [done|]. split; [by rewrite filter_cons_False|].
    split; [by rewrite !fmap_cons, Ho|].
    intros s' Hs'. rewrite !filter_cons, Hother by done. done.
Qed.

Lemma findTopic_Some s db t rs :
  findTopic s db = Some (t, rs) →
  head (filter (λ t, slug t = s) (topics db)) = Some t
  ∧ rs = omap (λ id, resourceDocs db !! id) (resources t).
Proof.
  unfold findTopic. destruct (head _) as [t'|]; [|done]. by intros [= <- <-].
Qed.

(** X20. updateTopic answers 500 "Server error" exactly when the store
    rejects the call, and the database is then as it was.  When the store
    answers: on a slug no topic has, updateTopic answers 404 "Topic not
    found" and changes nothing; on a slug a topic has, with a description
    in the body, it answers 200 with the first such topic carrying the new
    description; afterwards a fetch by that slug finds the topic with the
    new description and the same resources, a fetch by any other slug
    finds what it found before, and the names, slugs and resource lists of
    all topics, the resources and the votes are as they were. *)
Theorem updateTopic_effect s body db :
  (∀ rejected,
     TopicAdmin.status (fst (TopicAdmin.updateTopic rejected s body db)) = 500
     ↔ rejected = true)
  ∧ TopicAdmin.updateTopic true s body db
    = (TopicAdmin.mkRes 500 (TopicAdmin.JMessage "Server error"), db)
  ∧ (findTopic s db = None →
     TopicAdmin.updateTopic false s body db
     = (TopicAdmin.mkRes 404 (TopicAdmin.JMessage "Topic not found"), db))
  ∧ (∀ d t rs, body !! "description" = Some d → findTopic s db = Some (t, rs) →
     ∃ db',
       TopicAdmin.updateTopic false s body db
       = (TopicAdmin.mkRes 200
            (TopicAdmin.JTopic (mkTopic (name t) (slug t) d (resources t))), db')
       ∧ findTopic s db' = Some (mkTopic (name t) (slug t) d (resources t), rs)
       ∧ (∀ s', s' ≠ s → findTopic s' db' = findTopic s' db)
       ∧ TopicAdmin.outline <$> topics db' = TopicAdmin.outline <$> topics db
       ∧ resourceDocs db' = resourceDocs db ∧ votes db' = votes db).
Proof.
  split; [|split; [done|split]].
  - intros [|]; [done|].
    unfold TopicAdmin.updateTopic, TopicAdmin.awaitFindOneAndUpdate.
    by destruct (TopicAdmin.findOneAndUpdate _ _ _) as [[t ts]|].
  - unfold findTopic, TopicAdmin.updateTopic, TopicAdmin.awaitFindOneAndUpdate.
    destruct (head _) as [t|] eqn:Hh; [done|]. intros _.
    by rewrite findOneAndUpdate_None.
  - intros d t rs Hd [Hh ->]%findTopic_Some.
    destruct (findOneAndUpdate_Some s (Some d) _ t Hh)
      as (ts' & Hupd & Hh' & Hout & Hother).
    unfold TopicAdmin.updateTopic, TopicAdmin.awaitFindOneAndUpdate.
    rewrite Hd, Hupd. cbn [TopicAdmin.setDescription].
    eexists. split; [done|].
    split; [unfold findTopic; cbn; by rewrite Hh'|].
    split; [|done].
    intros s' Hs'. unfold findTopic. cbn. by rewrite Hother.
Qed.

Lemma updateTopic_effect_witness :
  ∃ db',
    TopicAdmin.updateTopic false "rocq" {[ "description" := "A prover" ]} db2
    = (TopicAdmin.mkRes 200
         (TopicAdmin.JTopic
            (mkTopic "Rocq" "rocq" "A prover" ["0000000000000000000000f1"])), db')
    ∧ findTopic "rocq" db'
      = Some (mkTopic "Rocq" "rocq" "A prover" ["0000000000000000000000f1"],
              [resource1]).
Proof.
  destruct (proj2 (proj2 (proj2
              (updateTopic_effect "rocq" {[ "description" := "A prover" ]} db2)))
              "A prover" topic1 [resource1])
    as (db' & Hrun & Hfind & _).
  - apply lookup_singleton_eq.
  - by vm_compute.
  - exists db'. exact (conj Hrun Hfind).
Defined.

Lemma setDescription_twice d1 d2 t :
  TopicAdmin.setDescription (Some d2) (TopicAdmin.setDescription d1 t)
  = TopicAdmin.setDescription (Some d2) t.
Proof. by destruct d1. Qed.

Lemma findOneAndUpdate_twice s d1 d2 ts t1 ts1 :
  TopicAdmin.findOneAndUpdate s d1 ts = Some (t1, ts1) →
  TopicAdmin.findOneAndUpdate s (Some d2) ts1
  = TopicAdmin.findOneAndUpdate s (Some d2) ts.
Proof.
  assert (Hslug : ∀ t, slug (TopicAdmin.setDescription d1 t) = slug t)
    by (by destruct d1).
  revert t1 ts1. induction ts as [|t ts IH]; intros t1 ts1; [done|].
  cbn [TopicAdmin.findOneAndUpdate]. case_bool_decide as Hs.
  - intros [= <- <-]. cbn [TopicAdmin.findOneAndUpdate].
    rewrite bool_decide_true by (by rewrite Hslug).
    by rewrite setDescription_twice.
  - destruct (TopicAdmin.findOneAndUpdate s d1 ts) as [[t' rest']|] eqn:Hrec;
      [|done].
    intros [= <- <-]. cbn [TopicAdmin.findOneAndUpdate].
    rewrite bool_decide_false by done. by rewrite (IH _ _ eq_refl).
Qed.

Lemma findOneAndUpdate_is_Some s d1 d2 ts x :
  TopicAdmin.findOneAndUpdate s d1 ts = Some x →
  is_Some (TopicAdmin.findOneAndUpdate s d2 ts).
Proof.
  revert x. induction ts as [|t ts IH]; intros x; [done|].
  cbn [TopicAdmin.findOneAndUpdate]. case_bool_decide; [by eexists|].
  destruct (TopicAdmin.findOneAndUpdate s d1 ts) as [[t' rest']|]; [|done].
  intros _. destruct (IH _ eq_refl) as [[t2 rest2] ->]. by eexists.
Qed.

(** X21. The last description wins: an updateTopic with a description that
    the store answers, made after an earlier updateTopic of the same slug
    (whether the store answered or rejected that one), answers, and leaves
    the database, exactly as it would have without the earlier update; in
    particular repeating an update changes nothing more. *)
Theorem updateTopic_last_wins rejected s body1 body2 d2 db :
  body2 !! "description" = Some d2 →
  TopicAdmin.updateTopic false s body2
    (snd (TopicAdmin.updateTopic rejected s body1 db))
  = TopicAdmin.updateTopic false s body2 db.
Proof.
  intros Hd. destruct rejected; [done|].
  unfold TopicAdmin.updateTopic at 2.
  unfold TopicAdmin.awaitFindOneAndUpdate at 1.
  destruct (TopicAdmin.findOneAndUpdate s (body1 !! "description") (topics db))
    as [[t1 ts1]|] eqn:H1; cbn [snd]; [|done].
  unfold TopicAdmin.updateTopic, TopicAdmin.awaitFindOneAndUpdate.
  cbn [topics TopicAdmin.withTopics]. rewrite Hd.
  rewrite (findOneAndUpdate_twice _ _ _ _ _ _ H1).
  destruct (findOneAndUpdate_is_Some _ _ (Some d2) _ _ H1) as [[t2 ts2] ->].
  done.
Qed.

Lemma updateTopic_last_wins_witness :
  TopicAdmin.updateTopic false "rocq" {[ "description" := "A prover" ]}
    (snd (TopicAdmin.updateTopic false "rocq" {[ "description" := "Draft" ]} db2))
  = TopicAdmin.updateTopic false "rocq" {[ "description" := "A prover" ]} db2.
Proof.
  apply (updateTopic_last_wins false "rocq" {[ "description" := "Draft" ]}
           {[ "description" := "A prover" ]} "A prover" db2).
  apply lookup_singleton_eq.
Defined.

(** ** The search bar *)

(** X24. After fetchSuggestions, whatever the state before and whatever
    the server answers, what the component shows is coherent (an error
    comes with no suggestion and without "No results found"; "No results
    found" comes with no suggestion and no error), the search term and the
    visibility of the list are as before, and "No results found" is set
    exactly when the term has more than two characters and the server
    answered with an empty array of topics.  For a term of at most two
    characters the server is not asked: the result is the same for every
    server, with nothing to show. *)
Theorem fetchSuggestions_coherent get st :
  SearchBar.coherent (SearchBar.fetchSuggestions get st)
  ∧ SearchBar.searchTerm (SearchBar.fetchSuggestions get st)
    = SearchBar.searchTerm st
  ∧ SearchBar.showSuggestions (SearchBar.fetchSuggestions get st)
    = SearchBar.showSuggestions st
  ∧ (SearchBar.noResults (SearchBar.fetchSuggestions get st) = true
     ↔ 2 < String.length (SearchBar.searchTerm st)
       ∧ get (SearchBar.searchTerm st) = SearchBar.SearchData (Some []))
  ∧ (String.length (SearchBar.searchTerm st) ≤ 2 →
     ∀ get', SearchBar.fetchSuggestions get' st
             = SearchBar.mkState (SearchBar.searchTerm st)
                 (SearchBar.showSuggestions st) [] None false).
Proof.
  unfold SearchBar.fetchSuggestions, SearchBar.coherent.
  destruct (Nat.ltb_spec 2 (String.length (SearchBar.searchTerm st))) as [Hlt|Hle].
  - split; [|split; [|split; [|split]]].
    + destruct (get _) as [|[[|t ts]|]]; cbn; split; intros; done.
    + by destruct (get _) as [|[ts|]].
    + by destruct (get _) as [|[ts|]].
    + destruct (get _) as [|[[|t ts]|]]; cbn; split; try done; by intros [_ ?].
    + intros Hle. lia.
  - split; [cbn; split; intros; done|]. split; [done|]. split; [done|].
    split; [cbn; split; [done|intros [? _]; lia]|].
    intros _ get'. destruct (Nat.ltb_spec 2 (String.length (SearchBar.searchTerm st)));
      [lia|done].
Qed.

Lemma trimEnd_blank s : SearchBar.blank s = true → SearchBar.trimEnd s = "".
Proof.
  induction s as [|c s IH]; [done|]. cbn.
  intros [Hc Hs]%andb_true_iff. by rewrite IH, Hc.
Qed.

Lemma trimEnd_empty s : SearchBar.trimEnd s = "" → SearchBar.blank s = true.
Proof.
  induction s as [|c s IH]; [done|]. cbn.
  destruct (SearchBar.trimEnd s) eqn:Ht; [|done].
  destruct (SearchBar.isWhiteSpace c); [|done]. intros _. by apply IH.
Qed.

Lemma trim_empty_iff s : SearchBar.trim s = "" ↔ SearchBar.blank s = true.
Proof.
  unfold SearchBar.trim. induction s as [|c s IH]; [done|]. cbn.
  destruct (SearchBar.isWhiteSpace c) eqn:Hc; [done|]. cbn.
  split; [|done]. destruct (SearchBar.trimEnd s); by rewrite ?Hc.
Qed.

(** X25. handleKeyDown does nothing for a key other than Enter.  On Enter
    it prevents the default action and then does exactly one of: show a
    toast, navigate, or nothing more.  When the search term is blank
    (empty, or white space only) the server is not asked: whatever the
    server, the only effect after the prevented default is the "Empty
    Search" toast; and it navigates only when the term is not blank and
    the server answered 200, to the slug of that answer. *)
Theorem handleKeyDown_effects get key st :
  (key ≠ "Enter" → SearchBar.handleKeyDown get key st = [])
  ∧ (SearchBar.blank (SearchBar.searchTerm st) = true →
     SearchBar.handleKeyDown get "Enter" st
     = [SearchBar.PreventDefault;
        SearchBar.Toast "Empty Search" "Please enter a topic name to search."])
  ∧ (∃ rest, SearchBar.handleKeyDown get "Enter" st
             = SearchBar.PreventDefault :: rest
       ∧ length rest ≤ 1)
  ∧ (∀ path, SearchBar.Navigate path ∈ SearchBar.handleKeyDown get key st →
     key = "Enter"
     ∧ SearchBar.blank (SearchBar.searchTerm st) = false
     ∧ ∃ slug, get (SearchBar.trim (SearchBar.searchTerm st))
               = SearchBar.Answered 200 slug
         ∧ path = "/topics/" +:+ slug).
Proof.
  unfold SearchBar.handleKeyDown. split; [|split; [|split]].
  - intros Hkey. by rewrite bool_decide_false.
  - intros Hblank%trim_empty_iff. rewrite bool_decide_true by done.
    by rewrite Hblank.
  - rewrite bool_decide_true by done. eexists. split; [done|].
    case_bool_decide; [cbn; lia|].
    destruct (get _) as [status slug|rs]; case_match; cbn; lia.
  - intros path. case_bool_decide as Hkey; [|by intros ?%elem_of_nil].
    intros [Heq|Hin]%elem_of_cons; [done|]. split; [done|]. revert Hin.
    case_bool_decide as Hblank.
    { intros [?|?%elem_of_nil]%elem_of_cons; done. }
    split.
    { destruct (SearchBar.blank _) eqn:Hb; [|done].
      by apply trim_empty_iff in Hb. }
    revert Hin. destruct (get _) as [status slug|rs].
    + destruct (Nat.eqb_spec status 200) as [->|]; [|by intros ?%elem_of_nil].
      intros [[= ->]|?%elem_of_nil]%elem_of_cons; [|done]. by exists slug.
    + case_match; intros [?|?%elem_of_nil]%elem_of_cons; done.
Qed.
